(** * LOV Connectivity Search: scoring, merge, ranking and remote clients

    A shallow embedding of [src/App.jsx] (the later variant of the component,
    the one whose [calculateConnectivityScore] takes the adoption and the
    design record) together with the properties of its scoring function,
    its merge-and-sort step and its failure handling.

    Modelling conventions.
    - A JavaScript string is a [string]: a sequence of code units below 256.
    - Values decoded from a response body are [json] terms; [undefined] is
      the [None] of [jsval]. JSON numbers are integers, meant below 2^53
      in size, where a Number holds them exactly and prints them in full.
    - A JavaScript Number is a [Number]: an exact real, or one of NaN,
      -Infinity, +Infinity. Arithmetic is exact (binary64 rounding and
      overflow are not modelled) and there is a single, unsigned zero.
    - A conversion to a string throws a TypeError on an object that has a
      member of its own named [toString]. [ToString] is the string when the
      conversion returns, and [calculateConnectivityScore] the score when
      its conversions do; where the program converts a value read from a
      response (a property key, a template literal, the argument of
      [parseInt]) the call is a step that may throw.
    - An object used as a dictionary keyed by vocabulary URI is a [gmap] of
      its own entries; a read of it also sees what a plain object inherits
      from its prototype.
    - Asynchronous functions are computations in a state-and-exception
      monad over the log of issued requests, the console and the React
      state; the remote services are an oracle from requests to outcomes. *)

From Stdlib Require Import Reals Lra Lia ZArith List Ascii String Permutation Sorted.
From stdpp Require Import base option list strings gmap pretty.

Local Open Scope string_scope.

#[local] Set Warnings "-register-all".
#[local] Unset Elimination Schemes.

(** ** JavaScript values *)

Inductive json :=
| JNull
| JBool (b : bool)
| JNum (n : Z)
| JStr (s : string)
| JArr (xs : list json)
| JObj (kvs : list (string * json)).

#[local] Set Elimination Schemes.

(** A JavaScript value read out of a payload; [None] is [undefined]. *)
Definition jsval := option json.

(** [ToBoolean]: the falsy values are [null], [false], [0] and the empty string. *)
Definition truthy (v : json) : bool :=
  match v with
  | JNull => false
  | JBool b => b
  | JNum n => negb (n =? 0)%Z
  | JStr s => negb (String.eqb s "")
  | JArr _ | JObj _ => true
  end.

Definition truthy_val (v : jsval) : bool :=
  match v with Some x => truthy x | None => false end.

(** [a || b] on values. *)
Definition js_or (a : jsval) (b : json) : json :=
  match a with
  | Some x => if truthy x then x else b
  | None => b
  end.

(** [ToString], when it returns ([printable] below says when); an array is
    joined with commas, its [null] elements printing as the empty string. *)
Fixpoint ToString (v : json) : string :=
  match v with
  | JNull => "null"
  | JBool true => "true"
  | JBool false => "false"
  | JNum n => pretty n
  | JStr s => s
  | JArr xs =>
      String.concat ","
        (List.map (fun x => match x with JNull => "" | _ => ToString x end) xs)
  | JObj _ => "[object Object]"
  end.

Definition ToString_val (v : jsval) : string :=
  match v with Some x => ToString x | None => "undefined" end.

(** ** Strings: white space and [parseInt] *)

(** White space and line terminators among the code units below 256:
    TAB, LF, VT, FF, CR, SP and NBSP. *)
Definition is_whitespace (c : ascii) : bool :=
  let n := nat_of_ascii c in
  ((n =? 9) || (n =? 10) || (n =? 11) || (n =? 12) || (n =? 13)
   || (n =? 32) || (n =? 160))%nat.

Fixpoint trim_start (s : string) : string :=
  match s with
  | String c s' => if is_whitespace c then trim_start s' else s
  | EmptyString => EmptyString
  end.

(** [s.trim()] is empty exactly when nothing is left after the leading white
    space; this is all the program ever asks of [trim]. *)
Definition trim_is_empty (s : string) : bool :=
  String.eqb (trim_start s) "".

(** The value of a digit in radix up to 36. *)
Definition digit_value (c : ascii) : option Z :=
  let n := Z.of_nat (nat_of_ascii c) in
  if (48 <=? n)%Z && (n <=? 57)%Z then Some (n - 48)%Z
  else if (97 <=? n)%Z && (n <=? 122)%Z then Some (n - 87)%Z
  else if (65 <=? n)%Z && (n <=? 90)%Z then Some (n - 55)%Z
  else None.

(** The longest prefix of radix digits, as an integer; [acc] is [None] until a
    first digit has been read. *)
Fixpoint parse_digits (radix : Z) (s : string) (acc : option Z) : option Z :=
  match s with
  | String c s' =>
      match digit_value c with
      | Some d =>
          if (d <? radix)%Z
          then parse_digits radix s' (Some (radix * default 0%Z acc + d)%Z)
          else acc
      | None => acc
      end
  | EmptyString => acc
  end.

(** [parseInt(s)] without a radix argument: leading white space, an optional
    sign, an optional [0x] prefix, then the digits. [None] is NaN. *)

Definition strip_sign (s : string) : Z * string :=
  match s with
  | String c r =>
      if Ascii.eqb c "-" then ((-1)%Z, r)
      else if Ascii.eqb c "+" then (1%Z, r)
      else (1%Z, s)
  | EmptyString => (1%Z, s)
  end.

Definition strip_hex_prefix (s : string) : Z * string :=
  match s with
  | String c0 (String c1 r) =>
      if Ascii.eqb c0 "0" && (Ascii.eqb c1 "x" || Ascii.eqb c1 "X")
      then (16%Z, r)
      else (10%Z, s)
  | _ => (10%Z, s)
  end.

Definition parseInt_string (s : string) : option Z :=
  let '(sign, s2) := strip_sign (trim_start s) in
  let '(radix, s3) := strip_hex_prefix s2 in
  match parse_digits radix s3 None with
  | Some n => Some (sign * n)%Z
  | None => None
  end.

(** ** Numbers *)

Inductive Number :=
| NaN
| NegInf
| PosInf
| Fin (r : R).

Module Num.

Local Open Scope R_scope.

Definition of_Z (n : Z) : Number := Fin (IZR n).

Definition neg (x : Number) : Number :=
  match x with
  | NaN => NaN
  | NegInf => PosInf
  | PosInf => NegInf
  | Fin r => Fin (- r)
  end.

Definition add (x y : Number) : Number :=
  match x, y with
  | NaN, _ | _, NaN => NaN
  | PosInf, NegInf | NegInf, PosInf => NaN
  | PosInf, _ | _, PosInf => PosInf
  | NegInf, _ | _, NegInf => NegInf
  | Fin a, Fin b => Fin (a + b)
  end.

Definition sub (x y : Number) : Number := add x (neg y).

(** The infinity of the sign of [r]; NaN for zero. *)
Definition signed_inf (r : R) : Number :=
  if Rlt_dec 0 r then PosInf else if Rlt_dec r 0 then NegInf else NaN.

Definition mul (x y : Number) : Number :=
  match x, y with
  | NaN, _ | _, NaN => NaN
  | Fin a, Fin b => Fin (a * b)
  | PosInf, PosInf | NegInf, NegInf => PosInf
  | PosInf, NegInf | NegInf, PosInf => NegInf
  | PosInf, Fin a | Fin a, PosInf => signed_inf a
  | NegInf, Fin a | Fin a, NegInf => signed_inf (- a)
  end.

(** Division; a zero divisor is +0. *)
Definition div (x y : Number) : Number :=
  match x, y with
  | NaN, _ | _, NaN => NaN
  | Fin a, Fin b => if Req_dec_T b 0 then signed_inf a else Fin (a / b)
  | Fin _, (PosInf | NegInf) => Fin 0
  | (PosInf | NegInf), (PosInf | NegInf) => NaN
  | PosInf, Fin b => if Rlt_dec b 0 then NegInf else PosInf
  | NegInf, Fin b => if Rlt_dec b 0 then PosInf else NegInf
  end.

(** [x < y] and [x <= y] as JavaScript evaluates them: false on NaN. *)
Definition lt (x y : Number) : Prop :=
  match x, y with
  | NaN, _ | _, NaN => False
  | _, NegInf => False
  | PosInf, _ => False
  | NegInf, _ => True
  | Fin _, PosInf => True
  | Fin a, Fin b => a < b
  end.

Definition le (x y : Number) : Prop :=
  match x, y with
  | NaN, _ | _, NaN => False
  | NegInf, _ => True
  | _, PosInf => True
  | _, NegInf => False
  | PosInf, _ => False
  | Fin a, Fin b => a <= b
  end.

(** [x || 0]: NaN and zero are falsy, so only NaN changes value. *)
Definition or_zero (x : Number) : Number :=
  match x with
  | NaN => Fin 0
  | _ => x
  end.

End Num.

(** [Math.log]. *)
Definition Math_log (x : Number) : Number :=
  match x with
  | NaN | NegInf => NaN
  | PosInf => PosInf
  | Fin r =>
      if Rlt_dec r 0 then NaN
      else if Req_dec_T r 0 then NegInf
      else Fin (ln r)
  end.

(** [Math.min(x, y)]. *)
Definition Math_min (x y : Number) : Number :=
  match x, y with
  | NaN, _ | _, NaN => NaN
  | NegInf, _ | _, NegInf => NegInf
  | PosInf, z | z, PosInf => z
  | Fin a, Fin b => Fin (Rmin a b)
  end.

(** [parseInt(v)]: the argument is first converted to a string. *)
Definition parseInt (v : jsval) : Number :=
  match parseInt_string (ToString_val v) with
  | Some n => Num.of_Z n
  | None => NaN
  end.

(** ** Scoring engine *)

Record AdoptionMetrics := {
  reusedByVocabularies : jsval;
  reusedByDatasets : jsval;
  occurrencesInDatasets : jsval
}.

Record DesignMetrics := {
  extends : Number;
  hasEquivalencesWith : Number;
  reliesOn : Number;
  usedBy : Number;
  specializes : Number;
  generalizes : Number
}.

(** [Math.log(1 + x)]. *)
Definition log1p (x : Number) : Number := Math_log (Num.add (Fin 1) x).

Definition calculateConnectivityScore
    (adoptionData : AdoptionMetrics) (designData : DesignMetrics) : Number :=
  let reusedByVocabs := Num.or_zero (parseInt (reusedByVocabularies adoptionData)) in
  let reusedByDatasets := Num.or_zero (parseInt (reusedByDatasets adoptionData)) in
  let occurrences := Num.or_zero (parseInt (occurrencesInDatasets adoptionData)) in
  let extendsCount := Num.or_zero (extends designData) in
  let hasEquivalences := Num.or_zero (hasEquivalencesWith designData) in
  let reliesOn := Num.or_zero (reliesOn designData) in
  let usedBy := Num.or_zero (usedBy designData) in
  let specializes := Num.or_zero (specializes designData) in
  let generalizes := Num.or_zero (generalizes designData) in
  let designConvergence :=
    Num.add (Num.add (Num.add (Num.add (Num.add
      (log1p extendsCount)
      (log1p hasEquivalences))
      (log1p reliesOn))
      (log1p usedBy))
      (log1p specializes))
      (log1p generalizes) in
  let adoptionConvergence :=
    Num.add (Num.add
      (log1p reusedByVocabs)
      (log1p reusedByDatasets))
      (Math_log (Num.add (Fin 1) (Num.div occurrences (Fin 1000)))) in
  let totalScore :=
    Num.add (Num.mul (Fin 0.6) designConvergence)
            (Num.mul (Fin 0.4) adoptionConvergence) in
  Math_min (Fin 1) (Num.div totalScore (Fin 15)).

(** The score as a function of the nine numbers the code reads. *)
Definition score_of (e h r u s g v d o : Number) : Number :=
  Math_min (Fin 1)
    (Num.div
       (Num.add
          (Num.mul (Fin 0.6)
             (Num.add (Num.add (Num.add (Num.add (Num.add
                (log1p e) (log1p h)) (log1p r)) (log1p u)) (log1p s)) (log1p g)))
          (Num.mul (Fin 0.4)
             (Num.add (Num.add (log1p v) (log1p d))
                (Math_log (Num.add (Fin 1) (Num.div o (Fin 1000)))))))
       (Fin 15)).

(** The nine metrics of a pair of records. *)
Inductive MetricField :=
| F_extends
| F_hasEquivalencesWith
| F_reliesOn
| F_usedBy
| F_specializes
| F_generalizes
| F_reusedByVocabularies
| F_reusedByDatasets
| F_occurrencesInDatasets.

(** The number the code uses for a metric: the field, parsed when it is an
    adoption field, with [|| 0] applied. *)
Definition metric_value (f : MetricField)
    (adoptionData : AdoptionMetrics) (designData : DesignMetrics) : Number :=
  match f with
  | F_extends => Num.or_zero (extends designData)
  | F_hasEquivalencesWith => Num.or_zero (hasEquivalencesWith designData)
  | F_reliesOn => Num.or_zero (reliesOn designData)
  | F_usedBy => Num.or_zero (usedBy designData)
  | F_specializes => Num.or_zero (specializes designData)
  | F_generalizes => Num.or_zero (generalizes designData)
  | F_reusedByVocabularies => Num.or_zero (parseInt (reusedByVocabularies adoptionData))
  | F_reusedByDatasets => Num.or_zero (parseInt (reusedByDatasets adoptionData))
  | F_occurrencesInDatasets => Num.or_zero (parseInt (occurrencesInDatasets adoptionData))
  end.

(** A design record of six integer counts. *)
Definition design_counts (e h r u s g : Z) : DesignMetrics :=
  {| extends := Num.of_Z e;
     hasEquivalencesWith := Num.of_Z h;
     reliesOn := Num.of_Z r;
     usedBy := Num.of_Z u;
     specializes := Num.of_Z s;
     generalizes := Num.of_Z g |}.

(** The integer an adoption field stands for: its parse, and 0 when it does
    not parse or is missing. *)
Definition adoption_count (v : jsval) : Z :=
  default 0%Z (parseInt_string (ToString_val v)).

(** The score as the specification writes it, over the reals:
    [min(1, (0.6 * design + 0.4 * adoption) / 15)]. *)
Definition spec_score (e h r u s g v d o : R) : R :=
  Rmin 1
    ((0.6 * (ln (1 + e) + ln (1 + h) + ln (1 + r)
             + ln (1 + u) + ln (1 + s) + ln (1 + g))
      + 0.4 * (ln (1 + v) + ln (1 + d) + ln (1 + o / 1000))) / 15)%R.

(** A string of decimal digits, at least one. *)
Definition is_digit (c : ascii) : bool :=
  let n := nat_of_ascii c in ((48 <=? n) && (n <=? 57))%nat.

Fixpoint all_digits (s : string) : bool :=
  match s with
  | String c r => is_digit c && all_digits r
  | EmptyString => true
  end.

Definition is_count_string (s : string) : bool :=
  negb (String.eqb s "") && all_digits s.

(** Valid adoption metrics: every field a string that writes a non-negative
    integer. *)
Definition valid_adoption (a : AdoptionMetrics) : Prop :=
  (exists s, reusedByVocabularies a = Some (JStr s) /\ is_count_string s = true) /\
  (exists s, reusedByDatasets a = Some (JStr s) /\ is_count_string s = true) /\
  (exists s, occurrencesInDatasets a = Some (JStr s) /\ is_count_string s = true).

(** The defaults the merge step substitutes for an absent row. *)
Definition default_adoption : AdoptionMetrics :=
  {| reusedByVocabularies := Some (JStr "0");
     reusedByDatasets := Some (JStr "0");
     occurrencesInDatasets := Some (JStr "0") |}.

Definition default_design : DesignMetrics :=
  {| extends := Fin 0; hasEquivalencesWith := Fin 0; reliesOn := Fin 0;
     usedBy := Fin 0; specializes := Fin 0; generalizes := Fin 0 |}.

(** ** Property access *)

Inductive exn :=
| TypeError
| HttpError (status : nat)
| FetchError
| SyntaxError.

Inductive Outcome (A : Type) :=
| Ok (a : A)
| Throw (e : exn).

Arguments Ok {A} a.
Arguments Throw {A} e.

(** The value of key [k] in the members of a parsed object; of two members
    with the same key the later one counts. *)
Fixpoint assoc_last (k : string) (kvs : list (string * json)) : jsval :=
  match kvs with
  | [] => None
  | (k', v) :: rest =>
      match assoc_last k rest with
      | Some v' => Some v'
      | None => if String.eqb k k' then Some v else None
      end
  end.

(** [v.k] for a [v] that is neither [null] nor [undefined]. Of the built-in
    properties only [length] is modelled. *)
Definition get_own (v : json) (k : string) : jsval :=
  match v with
  | JObj kvs => assoc_last k kvs
  | JArr xs => if String.eqb k "length" then Some (JNum (Z.of_nat (length xs))) else None
  | JStr s => if String.eqb k "length" then Some (JNum (Z.of_nat (String.length s))) else None
  | _ => None
  end.

(** [v.k]: a TypeError on [null] and [undefined]. *)
Definition get_prop (v : jsval) (k : string) : Outcome jsval :=
  match v with
  | None | Some JNull => Throw TypeError
  | Some x => Ok (get_own x k)
  end.

(** [v?.k]. *)
Definition opt_chain (v : jsval) (k : string) : jsval :=
  match v with
  | None | Some JNull => None
  | Some x => get_own x k
  end.

(** The elements of [v] when it is an array; calling an array method on
    anything else a response can hold is a TypeError. *)
Definition as_array (v : jsval) : Outcome (list json) :=
  match v with
  | Some (JArr xs) => Ok xs
  | _ => Throw TypeError
  end.

(** Sequencing of steps that may throw. *)
Definition and_then {A B : Type} (o : Outcome A) (k : A -> Outcome B) : Outcome B :=
  match o with
  | Ok a => k a
  | Throw e => Throw e
  end.

Notation "x <~ o ;; k" := (and_then o (fun x => k))
  (at level 100, o at next level, right associativity).

(** ** Conversions that throw *)

(** Whether the conversion of a value to a string returns. An object with a
    member of its own named [toString] makes it throw a TypeError: no member
    of a parsed body is callable, and [valueOf] gives no primitive either.
    An array is converted through its elements. *)
Fixpoint printable (v : json) : bool :=
  match v with
  | JObj kvs =>
      match assoc_last "toString" kvs with
      | Some _ => false
      | None => true
      end
  | JArr xs => forallb (fun x => printable x) xs
  | _ => true
  end.

Definition printable_val (v : jsval) : bool :=
  match v with Some x => printable x | None => true end.

(** The conversion of a value to a string, as a step: a property key
    [o[v]] or a substitution [`${v}`]. *)
Definition ToString_call (v : jsval) : Outcome string :=
  if printable_val v then Ok (ToString_val v) else Throw TypeError.

(** [parseInt(v)] as a step. *)
Definition parseInt_call (v : jsval) : Outcome Number :=
  if printable_val v then Ok (parseInt v) else Throw TypeError.

(** A call of [calculateConnectivityScore]: its three calls of [parseInt]
    come first and may throw; the design counts are used as they are. *)
Definition calculateConnectivityScore_call
    (adoptionData : AdoptionMetrics) (designData : DesignMetrics) : Outcome Number :=
  _ <~ parseInt_call (reusedByVocabularies adoptionData) ;;
  _ <~ parseInt_call (reusedByDatasets adoptionData) ;;
  _ <~ parseInt_call (occurrencesInDatasets adoptionData) ;;
  Ok (calculateConnectivityScore adoptionData designData).

(** ** Reading a mapping *)

(** The two mappings are plain objects. A read [map[k]] that finds no entry
    of the mapping's own goes on to its prototype. That is
    [Object.prototype], every member of which is truthy, unless a binding
    named [__proto__] came by: the assignment [map["__proto__"] = record]
    creates no entry but installs the record as the prototype, the fields of
    the record are then inherited first, and a read of [__proto__] returns
    the record. The entry of a [gmap] under the key [__proto__] stands for
    the record so installed. *)
Definition object_prototype_members : list string :=
  ["constructor"; "__defineGetter__"; "__defineSetter__"; "hasOwnProperty";
   "__lookupGetter__"; "__lookupSetter__"; "isPrototypeOf";
   "propertyIsEnumerable"; "toString"; "valueOf"; "__proto__"; "toLocaleString"].

Definition is_object_prototype_member (k : string) : bool :=
  existsb (String.eqb k) object_prototype_members.

(** Of the value found for a row the program reads the metric fields and
    nothing else; the records below hold those fields. A value that is no
    metrics record (a member of [Object.prototype], a string, a number) has
    none of them: an adoption field is then [undefined]; for a design count
    NaN stands for the missing field, which [|| 0] treats like [undefined]. *)
Definition no_adoption_fields : AdoptionMetrics :=
  {| reusedByVocabularies := None;
     reusedByDatasets := None;
     occurrencesInDatasets := None |}.

Definition no_design_fields : DesignMetrics :=
  {| extends := NaN; hasEquivalencesWith := NaN; reliesOn := NaN;
     usedBy := NaN; specializes := NaN; generalizes := NaN |}.

(** The adoption fields of a value of a response that is not [null]. *)
Definition adoption_fields_of (v : json) : AdoptionMetrics :=
  {| reusedByVocabularies := get_own v "reusedByVocabularies";
     reusedByDatasets := get_own v "reusedByDatasets";
     occurrencesInDatasets := get_own v "occurrencesInDatasets" |}.

(** The field of a record by its name. *)
Definition adoption_field (a : AdoptionMetrics) (k : string) : option jsval :=
  if String.eqb k "reusedByVocabularies" then Some (reusedByVocabularies a)
  else if String.eqb k "reusedByDatasets" then Some (reusedByDatasets a)
  else if String.eqb k "occurrencesInDatasets" then Some (occurrencesInDatasets a)
  else None.

Definition design_field (d : DesignMetrics) (k : string) : option Number :=
  if String.eqb k "extends" then Some (extends d)
  else if String.eqb k "hasEquivalencesWith" then Some (hasEquivalencesWith d)
  else if String.eqb k "reliesOn" then Some (reliesOn d)
  else if String.eqb k "usedBy" then Some (usedBy d)
  else if String.eqb k "specializes" then Some (specializes d)
  else if String.eqb k "generalizes" then Some (generalizes d)
  else None.

(** [ToBoolean] of a number: NaN and zero are falsy. *)
Definition truthy_number (x : Number) : bool :=
  match x with
  | NaN => false
  | Fin r => if Req_dec_T r 0 then false else true
  | NegInf | PosInf => true
  end.

(** [adoptionData[k] || { reusedByVocabularies: '0', ... }]. *)
Definition read_adoption (adoptionMap : gmap string AdoptionMetrics) (k : string)
    : AdoptionMetrics :=
  match adoptionMap !! k with
  | Some a => a
  | None =>
      match adoptionMap !! "__proto__" ≫= (fun installed => adoption_field installed k) with
      | Some (Some v) => if truthy v then adoption_fields_of v else default_adoption
      | Some None => default_adoption
      | None =>
          if is_object_prototype_member k then no_adoption_fields
          else default_adoption
      end
  end.

(** [designData[k] || { 'extends': 0, ... }]. *)
Definition read_design (designMap : gmap string DesignMetrics) (k : string)
    : DesignMetrics :=
  match designMap !! k with
  | Some d => d
  | None =>
      match designMap !! "__proto__" ≫= (fun installed => design_field installed k) with
      | Some x => if truthy_number x then no_design_fields else default_design
      | None =>
          if is_object_prototype_member k then no_design_fields
          else default_design
      end
  end.

(** ** Merged records and the sort *)

(** A merged record: the search row, the metric fields of the values stored
    as [adoptionData] and [designData], and the score. *)
Record RankedEntry := {
  entry : json;
  adoptionData : AdoptionMetrics;
  designData : DesignMetrics;
  connectivityScore : Number
}.

(** The merge of one search row with the two mappings (the callback of
    [lovResults.map] in step 3). *)
Definition merge_entry
    (adoptionMap : gmap string AdoptionMetrics)
    (designMap : gmap string DesignMetrics)
    (result : json) : Outcome RankedEntry :=
  uri <~ get_prop (Some result) "uri" ;;
  key <~ ToString_call uri ;;
  let adoption := read_adoption adoptionMap key in
  let design := read_design designMap key in
  score <~ calculateConnectivityScore_call adoption design ;;
  Ok {| entry := result;
        adoptionData := adoption;
        designData := design;
        connectivityScore := score |}.

(** [xs.map(f)] for a callback that may throw. *)
Fixpoint map_throwing {A B : Type} (f : A -> Outcome B) (xs : list A) : Outcome (list B) :=
  match xs with
  | [] => Ok []
  | x :: rest =>
      match f x with
      | Throw e => Throw e
      | Ok y =>
          match map_throwing f rest with
          | Throw e => Throw e
          | Ok ys => Ok (y :: ys)
          end
      end
  end.

Definition merge_results
    (adoptionMap : gmap string AdoptionMetrics)
    (designMap : gmap string DesignMetrics)
    (lovResults : list json) : Outcome (list RankedEntry) :=
  map_throwing (merge_entry adoptionMap designMap) lovResults.

(** Whether the sort takes a comparator result as positive; NaN counts as 0. *)
Definition comparator_positive (v : Number) : bool :=
  match v with
  | PosInf => true
  | Fin r => if Rlt_dec 0 r then true else false
  | NaN | NegInf => false
  end.

(** [Array.prototype.sort]: a stable sort, here by insertion. [x] was before
    every element of [l] and stays before the first [y] that the comparator
    does not put ahead of it. This is the order of the engine's sort for a
    comparator that orders the elements consistently, as [by_score_desc]
    does when no score is NaN. When a score is NaN the comparator ties it
    with every other score and the engine's order depends on its algorithm:
    order and stability are then not claimed, only that the result is a
    permutation. (On the three rows of [nan_net], the one list with a NaN
    score that is evaluated below, the engine finds a single run and leaves
    the rows in place, as the insertion does.) *)
Fixpoint sort_insert {A : Type} (cmp : A -> A -> Number) (x : A) (l : list A) : list A :=
  match l with
  | [] => [x]
  | y :: rest =>
      if comparator_positive (cmp x y) then y :: sort_insert cmp x rest
      else x :: y :: rest
  end.

Definition Array_sort {A : Type} (cmp : A -> A -> Number) (l : list A) : list A :=
  foldr (sort_insert cmp) [] l.

(** [(a, b) => b.connectivityScore - a.connectivityScore]. *)
Definition by_score_desc (a b : RankedEntry) : Number :=
  Num.sub (connectivityScore b) (connectivityScore a).

(** Steps 3 and 4 of [performSearch]: merge, score and sort. *)
Definition merge_and_rank
    (adoptionMap : gmap string AdoptionMetrics)
    (designMap : gmap string DesignMetrics)
    (lovResults : list json) : Outcome (list RankedEntry) :=
  match merge_results adoptionMap designMap lovResults with
  | Throw e => Throw e
  | Ok enhancedResults => Ok (Array_sort by_score_desc enhancedResults)
  end.

(** ** The world: network, console and React state *)

Inductive Request :=
| SearchRequest (q : string)
| SparqlRequest (query : string).

(** What a [fetch] comes to: the promise rejects, or a response arrives with
    a status and a body; a body that is not JSON is [None]. *)
Inductive FetchOutcome :=
| FetchRejected
| Response (status : nat) (body : option json).

Definition Network := Request -> FetchOutcome.

Record AppState := {
  searchTerm : string;
  loading : bool;
  searchResults : list RankedEntry;
  error : option string
}.

Record World := {
  requests : list Request;
  console : list (string * exn);
  app : AppState
}.

Definition M (A : Type) : Type := World -> Outcome A * World.

Definition ret {A : Type} (a : A) : M A := fun w => (Ok a, w).

Definition throw {A : Type} (e : exn) : M A := fun w => (Throw e, w).

Definition bind {A B : Type} (m : M A) (k : A -> M B) : M B :=
  fun w =>
    match m w with
    | (Ok a, w') => k a w'
    | (Throw e, w') => (Throw e, w')
    end.

Notation "x <- m ;; k" := (bind m (fun x => k))
  (at level 100, m at next level, right associativity).
Notation "m ;;; k" := (bind m (fun _ => k))
  (at level 100, right associativity).

Definition lift {A : Type} (o : Outcome A) : M A := fun w => (o, w).

Definition try_catch {A : Type} (body : M A) (handler : exn -> M A) : M A :=
  fun w =>
    match body w with
    | (Ok a, w') => (Ok a, w')
    | (Throw e, w') => handler e w'
    end.

(** [try { body } finally { fin }]. *)
Definition try_finally {A : Type} (body : M A) (fin : M unit) : M A :=
  fun w =>
    match body w with
    | (r, w') =>
        match fin w' with
        | (Ok _, w'') => (r, w'')
        | (Throw e, w'') => (Throw e, w'')
        end
    end.

(** [await Promise.all([m1, m2])]: both computations are started and run;
    the join rejects when one of them does. *)
Definition promise_all {A B : Type} (m1 : M A) (m2 : M B) : M (A * B) :=
  fun w =>
    match m1 w with
    | (r1, w1) =>
        match m2 w1 with
        | (r2, w2) =>
            (match r1, r2 with
             | Ok a, Ok b => Ok (a, b)
             | Throw e, _ => Throw e
             | Ok _, Throw e => Throw e
             end, w2)
        end
    end.

Definition console_error (label : string) (e : exn) : M unit :=
  fun w => (Ok tt, {| requests := requests w;
                      console := console w ++ [(label, e)];
                      app := app w |}).

Definition update_app (f : AppState -> AppState) : M unit :=
  fun w => (Ok tt, {| requests := requests w; console := console w; app := f (app w) |}).

Definition setLoading (b : bool) : M unit :=
  update_app (fun s => {| searchTerm := searchTerm s; loading := b;
                          searchResults := searchResults s; error := error s |}).

Definition setSearchResults (rs : list RankedEntry) : M unit :=
  update_app (fun s => {| searchTerm := searchTerm s; loading := loading s;
                          searchResults := rs; error := error s |}).

Definition setError (e : option string) : M unit :=
  update_app (fun s => {| searchTerm := searchTerm s; loading := loading s;
                          searchResults := searchResults s; error := e |}).

(** [await fetch(url)]: the request is issued, then the promise settles. The
    request is recorded by its endpoint and its un-encoded parameter. *)
Definition fetch (net : Network) (req : Request) : M (nat * option json) :=
  fun w =>
    let w' := {| requests := requests w ++ [req]; console := console w; app := app w |} in
    match net req with
    | FetchRejected => (Throw FetchError, w')
    | Response status body => (Ok (status, body), w')
    end.

(** [response.ok]. *)
Definition response_ok (status : nat) : bool :=
  ((200 <=? status) && (status <=? 299))%nat.

(** [await response.json()]. *)
Definition response_json (body : option json) : M json :=
  match body with
  | Some data => ret data
  | None => throw SyntaxError
  end.

(** ** Remote query client *)

(** [executeSPARQLQuery]. The URL is built before the [try] block;
    [encodeURIComponent] throws there on a lone surrogate only, which a
    string of code units below 256 does not hold, so that the function is
    modelled from its [try] block on. *)
Definition executeSPARQLQuery (net : Network) (query : string) : M jsval :=
  try_catch
    (response <- fetch net (SparqlRequest query) ;;
     (if negb (response_ok (fst response))
      then throw (HttpError (fst response))
      else ret tt) ;;;
     data <- response_json (snd response) ;;
     results <- lift (get_prop (Some data) "results") ;;
     lift (get_prop results "bindings"))
    (fun error =>
       console_error "SPARQL error:" error ;;;
       ret (Some (JArr []))).

(** [searchLOV]. *)
Definition searchLOV (net : Network) (searchTerm : string) : M json :=
  if trim_is_empty searchTerm then ret (JArr [])
  else
    try_catch
      (response <- fetch net (SearchRequest searchTerm) ;;
       (if negb (response_ok (fst response))
        then throw (HttpError (fst response))
        else ret tt) ;;;
       data <- response_json (snd response) ;;
       results <- lift (get_prop (Some data) "results") ;;
       ret (js_or results (JArr [])))
      (fun error =>
         console_error "LOV search error:" error ;;;
         ret (JArr [])).

(** ** Query builder and metadata fetchers *)

(** [vocabularyUris.map(uri => `<${uri}>`).join(' ')]. *)
Definition uriFilter (vocabularyUris : list json) : string :=
  String.concat " " (List.map (fun uri => "<" ++ ToString uri ++ ">") vocabularyUris).

(** The same as a step: every substitution converts its URI to a string. *)
Definition uriFilter_call (vocabularyUris : list json) : Outcome string :=
  if forallb printable vocabularyUris then Ok (uriFilter vocabularyUris)
  else Throw TypeError.

Definition adoption_query (vocabularyUris : list json) : string :=
  "
    PREFIX voaf: <http://purl.org/vocommons/voaf#>
    SELECT ?vocab ?reusedByVocabs ?reusedByDatasets ?occurrences
    WHERE {
      VALUES ?vocab { " ++ uriFilter vocabularyUris ++ " }
      ?vocab a voaf:Vocabulary .
      OPTIONAL { ?vocab voaf:reusedByVocabularies ?reusedByVocabs }
      OPTIONAL { ?vocab voaf:reusedByDatasets ?reusedByDatasets }
      OPTIONAL { ?vocab voaf:occurrencesInDatasets ?occurrences }
    }
  ".

Definition design_query (vocabularyUris : list json) : string :=
  "
    PREFIX voaf: <http://purl.org/vocommons/voaf#>
    
    SELECT ?vocab 
           (COUNT(DISTINCT ?extends) as ?extendsCount)
           (COUNT(DISTINCT ?hasEquiv) as ?hasEquivalencesCount) 
           (COUNT(DISTINCT ?reliesOn) as ?reliesOnCount)
           (COUNT(DISTINCT ?usedBy) as ?usedByCount)
           (COUNT(DISTINCT ?specializes) as ?specializesCount)
           (COUNT(DISTINCT ?generalizes) as ?generalizesCount)
    WHERE {
      VALUES ?vocab { " ++ uriFilter vocabularyUris ++ " }
      ?vocab a voaf:Vocabulary .
      OPTIONAL { ?vocab voaf:extends ?extends }
      OPTIONAL { ?vocab voaf:hasEquivalencesWith ?hasEquiv }
      OPTIONAL { ?vocab voaf:reliesOn ?reliesOn }
      OPTIONAL { ?vocab voaf:usedBy ?usedBy }
      OPTIONAL { ?vocab voaf:specializes ?specializes }
      OPTIONAL { ?vocab voaf:generalizes ?generalizes }
    }
    GROUP BY ?vocab
  ".

(** [xs.forEach(f)] for a callback that updates an accumulator and may throw. *)
Fixpoint forEach {A S : Type} (f : S -> A -> Outcome S) (xs : list A) (acc : S) : Outcome S :=
  match xs with
  | [] => Ok acc
  | x :: rest =>
      match f acc x with
      | Throw e => Throw e
      | Ok acc' => forEach f rest acc'
      end
  end.

(** [result.k?.value || '0'] for a row that is not [null]. *)
Definition binding_value (result : json) (k : string) : json :=
  js_or (opt_chain (get_own result k) "value") (JStr "0").

(** The callback of [results.forEach] in [getAdoptionConvergenceData]. The
    URI is converted to a property key; the three values are stored as they
    are. *)
Definition adoption_row (adoptionMap : gmap string AdoptionMetrics) (result : json)
    : Outcome (gmap string AdoptionMetrics) :=
  vocab <~ get_prop (Some result) "vocab" ;;
  let uri := opt_chain vocab "value" in
  if truthy_val uri then
    key <~ ToString_call uri ;;
    Ok (<[key :=
            {| reusedByVocabularies := Some (binding_value result "reusedByVocabs");
               reusedByDatasets := Some (binding_value result "reusedByDatasets");
               occurrencesInDatasets := Some (binding_value result "occurrences") |}]>
          adoptionMap)
  else Ok adoptionMap.

(** The callback of [results.forEach] in [getDesignConvergenceData]. *)
Definition design_row (designMap : gmap string DesignMetrics) (result : json)
    : Outcome (gmap string DesignMetrics) :=
  vocab <~ get_prop (Some result) "vocab" ;;
  let uri := opt_chain vocab "value" in
  if truthy_val uri then
    key <~ ToString_call uri ;;
    extendsCount <~ parseInt_call (Some (binding_value result "extendsCount")) ;;
    hasEquivalencesCount <~ parseInt_call (Some (binding_value result "hasEquivalencesCount")) ;;
    reliesOnCount <~ parseInt_call (Some (binding_value result "reliesOnCount")) ;;
    usedByCount <~ parseInt_call (Some (binding_value result "usedByCount")) ;;
    specializesCount <~ parseInt_call (Some (binding_value result "specializesCount")) ;;
    generalizesCount <~ parseInt_call (Some (binding_value result "generalizesCount")) ;;
    Ok (<[key :=
            {| extends := extendsCount;
               hasEquivalencesWith := hasEquivalencesCount;
               reliesOn := reliesOnCount;
               usedBy := usedByCount;
               specializes := specializesCount;
               generalizes := generalizesCount |}]>
          designMap)
  else Ok designMap.

(** [getAdoptionConvergenceData]. The filter is built outside any [try]
    block. *)
Definition getAdoptionConvergenceData (net : Network) (vocabularyUris : list json)
    : M (gmap string AdoptionMetrics) :=
  match vocabularyUris with
  | [] => ret ∅
  | _ =>
      lift (uriFilter_call vocabularyUris) ;;;
      results <- executeSPARQLQuery net (adoption_query vocabularyUris) ;;
      rows <- lift (as_array results) ;;
      lift (forEach adoption_row rows ∅)
  end.

(** [getDesignConvergenceData]. *)
Definition getDesignConvergenceData (net : Network) (vocabularyUris : list json)
    : M (gmap string DesignMetrics) :=
  match vocabularyUris with
  | [] => ret ∅
  | _ =>
      lift (uriFilter_call vocabularyUris) ;;;
      results <- executeSPARQLQuery net (design_query vocabularyUris) ;;
      rows <- lift (as_array results) ;;
      lift (forEach design_row rows ∅)
  end.

(** ** Ranking pipeline *)

(** [lovResults.map(result => result.uri).filter(Boolean)]. *)
Definition collect_uris (rows : list json) : Outcome (list json) :=
  match map_throwing (fun result => get_prop (Some result) "uri") rows with
  | Throw e => Throw e
  | Ok uris => Ok (omap (fun u : jsval => if truthy_val u then u else None) uris)
  end.

(** [v === 0]. *)
Definition is_zero (v : jsval) : bool :=
  match v with
  | Some (JNum n) => (n =? 0)%Z
  | _ => false
  end.

(** The body of the [try] block of [performSearch]. *)
Definition performSearch_try (net : Network) (term : string) : M unit :=
  lovResults <- searchLOV net term ;;
  len <- lift (get_prop (Some lovResults) "length") ;;
  if is_zero len then
    setSearchResults [] ;;;
    setLoading false
  else
    rows <- lift (as_array (Some lovResults)) ;;
    vocabularyUris <- lift (collect_uris rows) ;;
    maps <- promise_all (getAdoptionConvergenceData net vocabularyUris)
                        (getDesignConvergenceData net vocabularyUris) ;;
    enhancedResults <- lift (merge_and_rank (fst maps) (snd maps) rows) ;;
    setSearchResults enhancedResults.

Definition search_failed : string := "Search failed. Please try again.".

(** [performSearch]. *)
Definition performSearch (net : Network) (term : string) : M unit :=
  if trim_is_empty term then setSearchResults []
  else
    setLoading true ;;;
    setError None ;;;
    try_finally
      (try_catch
         (performSearch_try net term)
         (fun err =>
            console_error "Search error:" err ;;;
            setError (Some search_failed)))
      (setLoading false).

(** The requests of a log that went to the graph-query endpoint. *)
Definition is_sparql (r : Request) : bool :=
  match r with
  | SparqlRequest _ => true
  | SearchRequest _ => false
  end.

(** ** Notions used in the statements *)

#[global] Instance Number_eq_dec : EqDecision Number.
Proof.
  intros x y. unfold Decision.
  destruct x as [| | |a], y as [| | |b];
    try (left; reflexivity); try (right; discriminate).
  destruct (Req_dec_T a b) as [->|Hne]; [left; reflexivity|].
  right. intros [= E]. contradiction.
Defined.

(** Earlier records score at least as much as later ones. *)
Definition descending (l : list RankedEntry) : Prop :=
  StronglySorted (fun a b => Num.le (connectivityScore b) (connectivityScore a)) l.

(** The records of a list that have score [v], in their order. *)
Definition with_score (v : Number) (l : list RankedEntry) : list RankedEntry :=
  filter (fun m => connectivityScore m = v) l.

(** A function reflects [<] when a strictly smaller result needs a strictly
    smaller argument: it never decreases, whatever NaN it meets. *)
Definition reflects_lt (F : Number -> Number) : Prop :=
  forall x y, Num.lt (F x) (F y) -> Num.lt x y.

(** The key under which the merge step looks a row up. *)
Definition row_key (result : json) : string :=
  ToString_val (get_own result "uri").

(** The record the merge callback returns for a row, when it returns. *)
Definition merged_record
    (adoptionMap : gmap string AdoptionMetrics)
    (designMap : gmap string DesignMetrics)
    (result : json) : RankedEntry :=
  let adoption := read_adoption adoptionMap (row_key result) in
  let design := read_design designMap (row_key result) in
  {| entry := result;
     adoptionData := adoption;
     designData := design;
     connectivityScore := calculateConnectivityScore adoption design |}.

(** The rows on which the merge callback returns: not [null], with a [uri]
    that converts to a string and adoption fields that do. *)
Definition mergeable
    (adoptionMap : gmap string AdoptionMetrics) (result : json) : bool :=
  match result with
  | JNull => false
  | _ =>
      printable_val (get_own result "uri")
      && printable_val (reusedByVocabularies (read_adoption adoptionMap (row_key result)))
      && printable_val (reusedByDatasets (read_adoption adoptionMap (row_key result)))
      && printable_val (occurrencesInDatasets (read_adoption adoptionMap (row_key result)))
  end.

(** The truthy [uri] values of the rows, in row order: what
    [lovResults.map(result => result.uri).filter(Boolean)] returns for rows
    none of which is [null]. *)
Definition row_uris (rows : list json) : list json :=
  omap (fun result => match get_own result "uri" with
                      | Some u => if truthy u then Some u else None
                      | None => None
                      end) rows.

Definition is_null (v : json) : bool :=
  match v with JNull => true | _ => false end.

(** A term that is empty or all white space. *)
Fixpoint all_whitespace (s : string) : bool :=
  match s with
  | String c r => is_whitespace c && all_whitespace r
  | EmptyString => true
  end.

(** The world in which the [try] block of [performSearch] starts. *)
Definition searching (w : World) : World :=
  snd ((setLoading true ;;; setError None) w).

(** A computation that leaves the React state alone. *)
Definition keeps_app {A : Type} (m : M A) : Prop :=
  forall w, app (snd (m w)) = app w.

(** A computation that adds no request to the graph endpoint. *)
Definition no_sparql {A : Type} (m : M A) : Prop :=
  forall w, filter is_sparql (requests (snd (m w))) = filter is_sparql (requests w).

(** A computation that, when it throws, has left the React state alone. *)
Definition throws_clean {A : Type} (m : M A) : Prop :=
  forall w e w', m w = (Throw e, w') -> app w' = app w.

(** ** Sample inputs *)

Definition empty_world : World :=
  {| requests := []; console := [];
     app := {| searchTerm := ""; loading := false; searchResults := []; error := None |} |}.

Definition negative_occurrences : AdoptionMetrics :=
  {| reusedByVocabularies := Some (JStr "0");
     reusedByDatasets := Some (JStr "0");
     occurrencesInDatasets := Some (JStr "-500") |}.

Definition more_occurrences : AdoptionMetrics :=
  {| reusedByVocabularies := Some (JStr "0");
     reusedByDatasets := Some (JStr "0");
     occurrencesInDatasets := Some (JStr "2000") |}.

Definition sample_adoption : AdoptionMetrics :=
  {| reusedByVocabularies := Some (JStr "630");
     reusedByDatasets := Some (JStr "12");
     occurrencesInDatasets := Some (JStr "48000") |}.

Definition negative_reuse : AdoptionMetrics :=
  {| reusedByVocabularies := Some (JStr "-5");
     reusedByDatasets := Some (JStr "0");
     occurrencesInDatasets := Some (JStr "0") |}.

(** A search row named after a member of [Object.prototype]. *)
Definition row_constructor : json := JObj [("uri", JStr "constructor")].

Definition row_A : json := JObj [("uri", JStr "A")].
Definition row_B : json := JObj [("uri", JStr "B")].
Definition row_C : json := JObj [("uri", JStr "C")].

(** A registry whose search finds nothing. *)
Definition no_rows_net : Network :=
  fun _ => Response 200 (Some (JObj [("results", JArr [])])).

(** A registry whose search finds row A and whose graph endpoint answers
    with a [results] object that has no [bindings]. *)
Definition missing_bindings_net : Network :=
  fun req =>
    match req with
    | SearchRequest _ => Response 200 (Some (JObj [("results", JArr [row_A])]))
    | SparqlRequest _ => Response 200 (Some (JObj [("results", JObj [])]))
    end.

(** A graph-endpoint body with a negative reuse count for B. *)
Definition nan_bindings : json :=
  JObj [("results", JObj [("bindings", JArr [
    JObj [("vocab", JObj [("value", JStr "A")]);
          ("extendsCount", JObj [("value", JStr "1")])];
    JObj [("vocab", JObj [("value", JStr "B")]);
          ("reusedByVocabs", JObj [("value", JStr "-5")])];
    JObj [("vocab", JObj [("value", JStr "C")]);
          ("extendsCount", JObj [("value", JStr "2")])]])])].

(** A registry whose search finds rows A, B, C and whose graph endpoint
    answers every query with [nan_bindings]. *)
Definition nan_net : Network :=
  fun req =>
    match req with
    | SearchRequest _ =>
        Response 200 (Some (JObj [("results", JArr [row_A; row_B; row_C])]))
    | SparqlRequest _ => Response 200 (Some nan_bindings)
    end.

(** The two mappings the metadata fetchers build from [nan_bindings]. *)
Definition nan_adoption_map : gmap string AdoptionMetrics :=
  <["C" := default_adoption]>
    (<["B" := negative_reuse]> (<["A" := default_adoption]> ∅)).

Definition nan_design_map : gmap string DesignMetrics :=
  <["C" := design_counts 2 0 0 0 0 0]>
    (<["B" := design_counts 0 0 0 0 0 0]> (<["A" := design_counts 1 0 0 0 0 0]> ∅)).

(** ** Further notions *)

(** A failure of transport: the fetch is rejected, the status is outside
    200..299, or the body is not JSON. *)
Definition transport_failure (o : FetchOutcome) : Prop :=
  o = FetchRejected
  \/ (exists status body, o = Response status body /\ response_ok status = false)
  \/ (exists status, o = Response status None).

(** The record [getAdoptionConvergenceData] stores for a binding. *)
Definition adoption_of_binding (result : json) : AdoptionMetrics :=
  {| reusedByVocabularies := Some (binding_value result "reusedByVocabs");
     reusedByDatasets := Some (binding_value result "reusedByDatasets");
     occurrencesInDatasets := Some (binding_value result "occurrences") |}.

(** The record [getDesignConvergenceData] stores for a binding. *)
Definition design_of_binding (result : json) : DesignMetrics :=
  {| extends := parseInt (Some (binding_value result "extendsCount"));
     hasEquivalencesWith := parseInt (Some (binding_value result "hasEquivalencesCount"));
     reliesOn := parseInt (Some (binding_value result "reliesOnCount"));
     usedBy := parseInt (Some (binding_value result "usedByCount"));
     specializes := parseInt (Some (binding_value result "specializesCount"));
     generalizes := parseInt (Some (binding_value result "generalizesCount")) |}.

(** [result.vocab?.value] for a binding that is not [null]. *)
Definition binding_uri (result : json) : jsval :=
  opt_chain (get_own result "vocab") "value".

(** The variables the two queries select besides [?vocab]. *)
Definition adoption_keys : list string :=
  ["reusedByVocabs"; "reusedByDatasets"; "occurrences"].

Definition design_keys : list string :=
  ["extendsCount"; "hasEquivalencesCount"; "reliesOnCount";
   "usedByCount"; "specializesCount"; "generalizesCount"].

(** The bindings on which the callback of a fetcher returns, [keys] being
    the variables whose values it parses: a binding that is not [null] and,
    when its [vocab.value] is truthy, has a [vocab.value] and values under
    [keys] that convert to a string. *)
Definition storable (keys : list string) (result : json) : bool :=
  negb (is_null result)
  && (negb (truthy_val (binding_uri result))
      || (printable_val (binding_uri result)
          && forallb (fun k => printable (binding_value result k)) keys)).

(** A binding whose values under [keys] do not parse to a negative integer. *)
Definition nonneg_binding (keys : list string) (result : json) : Prop :=
  Forall (fun k => (0 <= adoption_count (Some (binding_value result k)))%Z) keys.

(** A count that is the parse of a value which does not stand for a negative
    integer. *)
Definition parsed_nonneg (x : Number) : Prop :=
  exists v, x = parseInt v /\ (0 <= adoption_count v)%Z.

(** A pair of records whose nine metrics are non-negative integers. *)
Definition nonneg_metrics (a : AdoptionMetrics) (d : DesignMetrics) : Prop :=
  forall f, exists n, (0 <= n)%Z /\ metric_value f a d = Num.of_Z n.

(** A score that is a number from 0 to 1. *)
Definition unit_score (x : Number) : Prop :=
  exists r, x = Fin r /\ (0 <= r <= 1)%R.

(** A computation that leaves one field of the React state alone. *)
Definition keeps_field {X A : Type} (field : AppState -> X) (m : M A) : Prop :=
  forall w, field (app (snd (m w))) = field (app w).

(** The requests of one search over [uris]: the keyword search, then, when
    there is a URI to ask about, the adoption and the design query. *)
Definition metadata_requests (uris : list json) : list Request :=
  match uris with
  | [] => []
  | _ => [SparqlRequest (adoption_query uris); SparqlRequest (design_query uris)]
  end.

(** ** The connectivity meter *)

(** [x >= y]: false on NaN. *)
Definition num_geb (x y : Number) : bool :=
  match x, y with
  | NaN, _ | _, NaN => false
  | PosInf, _ => true
  | _, NegInf => true
  | NegInf, _ => false
  | Fin _, PosInf => false
  | Fin a, Fin b => if Rle_dec b a then true else false
  end.

(** [Math.round]: the nearest integer, a tie going up. *)
Definition Math_round (x : Number) : Number :=
  match x with
  | Fin r => Fin (IZR (Int_part (r + 1 / 2)))
  | _ => x
  end.

(** [getColor] of [ConnectivityMeter]. *)
Definition getColor (score : Number) : string :=
  if num_geb score (Fin 0.7) then "bg-green-500"
  else if num_geb score (Fin 0.4) then "bg-yellow-500"
  else "bg-red-500".

(** The [width] of [ConnectivityMeter], in percent. *)
Definition meter_width (score : Number) : Number :=
  Math_round (Num.mul score (Fin 100)).

(** ** More sample inputs *)

(** A registry whose search finds rows A, B, C while the graph endpoint
    rejects every request. *)
Definition graph_down_net : Network :=
  fun req =>
    match req with
    | SearchRequest _ =>
        Response 200 (Some (JObj [("results", JArr [row_A; row_B; row_C])]))
    | SparqlRequest _ => FetchRejected
    end.

(** A registry that answers every request with status 503. *)
Definition unavailable_net : Network :=
  fun _ => Response 503 None.

(** A binding for A with its three adoption counts. *)
Definition binding_A : json :=
  JObj [("vocab", JObj [("value", JStr "A")]);
        ("reusedByVocabs", JObj [("value", JStr "630")]);
        ("reusedByDatasets", JObj [("value", JStr "12")]);
        ("occurrences", JObj [("value", JStr "48000")])].

(** A graph endpoint that answers with the one binding [binding_A]. *)
Definition one_binding_net : Network :=
  fun _ =>
    Response 200
      (Some (JObj [("results", JObj [("bindings", JArr [binding_A])])])).

(** A binding named [__proto__] whose reuse count is an object, and a
    search row named after the field that holds it. *)
Definition binding_proto : json :=
  JObj [("vocab", JObj [("value", JStr "__proto__")]);
        ("reusedByVocabs",
         JObj [("value", JObj [("reusedByVocabularies", JStr "-5")])])].

Definition row_field : json := JObj [("uri", JStr "reusedByVocabularies")].

(** A later binding for A that has only a reuse count. *)
Definition binding_A_again : json :=
  JObj [("vocab", JObj [("value", JStr "A")]);
        ("reusedByVocabs", JObj [("value", JStr "7")])].

(** * Properties *)

(** ** Order on numbers *)

Section NumberOrder.

Local Open Scope R_scope.

Lemma num_lt_irrefl x : ~ Num.lt x x.
Proof. destruct x; simpl; lra. Qed.

Lemma num_lt_asym x y : Num.lt x y -> ~ Num.lt y x.
Proof. destruct x, y; simpl; lra. Qed.

Lemma num_le_of_not_lt x y : x <> NaN -> y <> NaN -> ~ Num.lt y x -> Num.le x y.
Proof. destruct x, y; simpl; try tauto; lra. Qed.

Lemma num_le_not_lt x y : Num.le x y -> ~ Num.lt y x.
Proof. destruct x, y; simpl; try tauto; lra. Qed.

Lemma reflects_compose F G :
  reflects_lt F -> reflects_lt G -> reflects_lt (fun x => F (G x)).
Proof. intros HF HG x y H. apply HG, HF, H. Qed.

Ltac cases :=
  repeat match goal with
    | |- context [Rlt_dec ?a ?b] => destruct (Rlt_dec a b)
    | |- context [Req_dec_T ?a ?b] => destruct (Req_dec_T a b)
    | H : context [Rlt_dec ?a ?b] |- _ => destruct (Rlt_dec a b)
    | H : context [Req_dec_T ?a ?b] |- _ => destruct (Req_dec_T a b)
    end.

Lemma reflects_add_l c : reflects_lt (fun x => Num.add x c).
Proof. intros x y; destruct c, x, y; simpl; try tauto; lra. Qed.

Lemma reflects_add_r c : reflects_lt (Num.add c).
Proof. intros x y; destruct c, x, y; simpl; try tauto; lra. Qed.

Lemma reflects_mul_pos k : 0 < k -> reflects_lt (Num.mul (Fin k)).
Proof.
  intros Hk x y; destruct x, y; simpl; unfold Num.signed_inf; cases;
    simpl; try tauto; try lra; nra.
Qed.

Lemma reflects_div_pos k : 0 < k -> reflects_lt (fun x => Num.div x (Fin k)).
Proof.
  intros Hk x y; destruct x, y; simpl; unfold Num.signed_inf; cases;
    simpl; try tauto; try lra.
  all: unfold Rdiv; intros H; apply Rmult_lt_reg_r with (/ k); [|exact H].
  all: apply Rinv_0_lt_compat, Hk.
Qed.

Lemma reflects_log : reflects_lt Math_log.
Proof.
  intros x y; destruct x, y; simpl; cases; simpl; try tauto; try lra.
  intros H. apply ln_lt_inv; lra.
Qed.

Lemma reflects_min c : reflects_lt (Math_min c).
Proof.
  intros x y; destruct c, x, y; simpl; try tauto; try lra;
    unfold Rmin; repeat destruct Rle_dec; lra.
Qed.

Lemma reflects_log1p : reflects_lt log1p.
Proof.
  unfold log1p. apply (reflects_compose Math_log (Num.add (Fin 1))).
  - apply reflects_log.
  - apply reflects_add_r.
Qed.

End NumberOrder.

(** ** Parsing *)

Lemma digit_value_nonneg c d : digit_value c = Some d -> (0 <= d)%Z.
Proof.
  unfold digit_value.
  repeat match goal with
         | |- context [if ?b then _ else _] => destruct b eqn:?
         end; intros [= <-]; lia.
Qed.

Lemma parse_digits_nonneg radix s acc n :
  (0 <= radix)%Z ->
  (forall a, acc = Some a -> (0 <= a)%Z) ->
  parse_digits radix s acc = Some n -> (0 <= n)%Z.
Proof.
  intros Hr. revert acc. induction s as [|c s IH]; intros acc Hacc; simpl.
  - apply Hacc.
  - destruct (digit_value c) as [d|] eqn:Hd; [|apply Hacc].
    destruct (d <? radix)%Z; [|apply Hacc].
    apply IH. intros a [= <-].
    pose proof (digit_value_nonneg _ _ Hd).
    destruct acc as [a0|]; simpl; [specialize (Hacc a0 eq_refl); nia | lia].
Qed.

Lemma strip_hex_prefix_radix s : (0 <= fst (strip_hex_prefix s))%Z.
Proof.
  destruct s as [|c0 [|c1 r]]; simpl; try lia.
  destruct (_ && _); simpl; lia.
Qed.

Lemma is_digit_not_whitespace c : is_digit c = true -> is_whitespace c = false.
Proof.
  unfold is_digit, is_whitespace. intros H.
  apply andb_true_iff in H as [H1 H2].
  apply Nat.leb_le in H1. apply Nat.leb_le in H2.
  repeat (apply orb_false_iff; split); apply Nat.eqb_neq; lia.
Qed.

Lemma count_string_nonneg s :
  is_count_string s = true -> (0 <= adoption_count (Some (JStr s)))%Z.
Proof.
  unfold is_count_string, adoption_count, parseInt_string. simpl ToString_val.
  destruct s as [|c r]; [discriminate|]. simpl.
  intros H. apply andb_true_iff in H as [Hc _].
  rewrite (is_digit_not_whitespace _ Hc). unfold strip_sign.
  destruct (Ascii.eqb_spec c "-") as [->|_]; [discriminate|].
  destruct (Ascii.eqb_spec c "+") as [->|_]; [discriminate|].
  pose proof (strip_hex_prefix_radix (String c r)) as Hr.
  destruct (strip_hex_prefix (String c r)) as [radix s3]. simpl in Hr.
  destruct (parse_digits radix s3 None) as [n|] eqn:Hn; simpl; [|reflexivity].
  assert (0 <= n)%Z; [|destruct n; simpl; lia].
  eapply parse_digits_nonneg; [exact Hr | | exact Hn]. discriminate.
Qed.

Lemma or_zero_parseInt v :
  Num.or_zero (parseInt v) = Num.of_Z (adoption_count v).
Proof.
  unfold parseInt, adoption_count.
  destruct (parseInt_string (ToString_val v)); reflexivity.
Qed.

(** ** The score *)

Lemma calculateConnectivityScore_eq a d :
  calculateConnectivityScore a d =
  score_of (metric_value F_extends a d) (metric_value F_hasEquivalencesWith a d)
           (metric_value F_reliesOn a d) (metric_value F_usedBy a d)
           (metric_value F_specializes a d) (metric_value F_generalizes a d)
           (metric_value F_reusedByVocabularies a d)
           (metric_value F_reusedByDatasets a d)
           (metric_value F_occurrencesInDatasets a d).
Proof. reflexivity. Qed.

Section ScoreFacts.

Local Open Scope R_scope.

Lemma Math_log_pos x : 0 < x -> Math_log (Fin x) = Fin (ln x).
Proof.
  intros Hx. simpl. destruct (Rlt_dec x 0); [lra|].
  destruct (Req_dec_T x 0); [lra|]. reflexivity.
Qed.

Lemma log1p_Fin x : 0 < 1 + x -> log1p (Fin x) = Fin (ln (1 + x)).
Proof. intros Hx. unfold log1p. simpl Num.add. apply Math_log_pos, Hx. Qed.

Lemma div_Fin x k : k <> 0 -> Num.div (Fin x) (Fin k) = Fin (x / k).
Proof. intros Hk. simpl. destruct (Req_dec_T k 0); [contradiction|reflexivity]. Qed.

(** Where every logarithm is taken of a positive number the code computes
    the real formula. *)
Lemma score_of_Fin e h r u s g v d o :
  0 < 1 + e -> 0 < 1 + h -> 0 < 1 + r -> 0 < 1 + u -> 0 < 1 + s -> 0 < 1 + g ->
  0 < 1 + v -> 0 < 1 + d -> 0 < 1 + o / 1000 ->
  score_of (Fin e) (Fin h) (Fin r) (Fin u) (Fin s) (Fin g) (Fin v) (Fin d) (Fin o)
  = Fin (spec_score e h r u s g v d o).
Proof.
  intros. unfold score_of.
  rewrite !log1p_Fin by assumption.
  rewrite (div_Fin o 1000) by lra.
  change (Num.add (Fin 1) (Fin (o / 1000))) with (Fin (1 + o / 1000)).
  rewrite Math_log_pos by assumption.
  cbn [Num.add Num.mul]. rewrite div_Fin by lra. reflexivity.
Qed.

Lemma ln1p_nonneg x : 0 <= x -> 0 <= ln (1 + x).
Proof.
  intros Hx. destruct (Req_dec_T x 0) as [->|Hne].
  - replace (1 + 0) with 1 by lra. rewrite ln_1. lra.
  - rewrite <- ln_1. left. apply ln_increasing; lra.
Qed.

Lemma spec_score_range e h r u s g v d o :
  0 <= e -> 0 <= h -> 0 <= r -> 0 <= u -> 0 <= s -> 0 <= g ->
  0 <= v -> 0 <= d -> 0 <= o ->
  0 <= spec_score e h r u s g v d o <= 1.
Proof.
  intros He Hh Hr Hu Hs Hg Hv Hd Ho. unfold spec_score.
  pose proof (ln1p_nonneg e He). pose proof (ln1p_nonneg h Hh).
  pose proof (ln1p_nonneg r Hr). pose proof (ln1p_nonneg u Hu).
  pose proof (ln1p_nonneg s Hs). pose proof (ln1p_nonneg g Hg).
  pose proof (ln1p_nonneg v Hv). pose proof (ln1p_nonneg d Hd).
  assert (0 <= ln (1 + o / 1000)) by (apply ln1p_nonneg; lra).
  split; [|apply Rmin_l].
  apply Rmin_glb; lra.
Qed.

(** The score of records of non-negative integers. *)
Lemma score_counts a e h r u s g :
  (0 <= e)%Z -> (0 <= h)%Z -> (0 <= r)%Z -> (0 <= u)%Z -> (0 <= s)%Z -> (0 <= g)%Z ->
  (0 <= adoption_count (reusedByVocabularies a))%Z ->
  (0 <= adoption_count (reusedByDatasets a))%Z ->
  (0 <= adoption_count (occurrencesInDatasets a))%Z ->
  calculateConnectivityScore a (design_counts e h r u s g)
  = Fin (spec_score (IZR e) (IZR h) (IZR r) (IZR u) (IZR s) (IZR g)
           (IZR (adoption_count (reusedByVocabularies a)))
           (IZR (adoption_count (reusedByDatasets a)))
           (IZR (adoption_count (occurrencesInDatasets a))))
  /\ 0 <= spec_score (IZR e) (IZR h) (IZR r) (IZR u) (IZR s) (IZR g)
           (IZR (adoption_count (reusedByVocabularies a)))
           (IZR (adoption_count (reusedByDatasets a)))
           (IZR (adoption_count (occurrencesInDatasets a))) <= 1.
Proof.
  intros He Hh Hr Hu Hs Hg Hv Hd Ho.
  apply IZR_le in He, Hh, Hr, Hu, Hs, Hg, Hv, Hd, Ho.
  split; [|apply spec_score_range; assumption].
  rewrite calculateConnectivityScore_eq. unfold metric_value.
  rewrite !or_zero_parseInt. unfold design_counts, Num.of_Z. simpl.
  apply score_of_Fin; lra.
Qed.

Lemma spec_score_zero : spec_score 0 0 0 0 0 0 0 0 0 = 0.
Proof.
  unfold spec_score. replace (1 + 0 / 1000) with 1 by lra.
  replace (1 + 0) with 1 by lra. rewrite ln_1.
  unfold Rmin. destruct Rle_dec; lra.
Qed.

Lemma score_defaults :
  calculateConnectivityScore default_adoption default_design = Fin 0.
Proof.
  change default_design with (design_counts 0 0 0 0 0 0).
  destruct (score_counts default_adoption 0 0 0 0 0 0) as [E _];
    try (vm_compute; discriminate).
  rewrite E. f_equal. apply spec_score_zero.
Qed.

(** A value without metric fields counts as nine zeros. *)
Lemma score_no_fields :
  calculateConnectivityScore no_adoption_fields no_design_fields = Fin 0.
Proof.
  rewrite calculateConnectivityScore_eq. unfold metric_value.
  rewrite !or_zero_parseInt.
  change (adoption_count _) with 0%Z.
  cbn [no_design_fields extends hasEquivalencesWith reliesOn usedBy specializes
       generalizes Num.or_zero].
  unfold Num.of_Z. rewrite score_of_Fin by lra. f_equal. apply spec_score_zero.
Qed.

End ScoreFacts.

Section ScoreClaims.

Local Open Scope R_scope.

(** C1 (as amended). For every adoption record whose three fields stand
    for non-negative integers (a field that does not parse, or is missing,
    stands for 0) and every design record of six non-negative integer
    counts, [calculateConnectivityScore] returns exactly
    [min(1, (0.6 * design + 0.4 * adoption) / 15)], and that number lies
    in the closed interval from 0 to 1. *)
Theorem score_is_capped_formula a e h r u s g :
  (0 <= e)%Z -> (0 <= h)%Z -> (0 <= r)%Z -> (0 <= u)%Z -> (0 <= s)%Z -> (0 <= g)%Z ->
  (0 <= adoption_count (reusedByVocabularies a))%Z ->
  (0 <= adoption_count (reusedByDatasets a))%Z ->
  (0 <= adoption_count (occurrencesInDatasets a))%Z ->
  calculateConnectivityScore a (design_counts e h r u s g)
  = Fin (spec_score (IZR e) (IZR h) (IZR r) (IZR u) (IZR s) (IZR g)
           (IZR (adoption_count (reusedByVocabularies a)))
           (IZR (adoption_count (reusedByDatasets a)))
           (IZR (adoption_count (occurrencesInDatasets a))))
  /\ 0 <= spec_score (IZR e) (IZR h) (IZR r) (IZR u) (IZR s) (IZR g)
           (IZR (adoption_count (reusedByVocabularies a)))
           (IZR (adoption_count (reusedByDatasets a)))
           (IZR (adoption_count (occurrencesInDatasets a))) <= 1.
Proof.
  intros He Hh Hr Hu Hs Hg Hv Hd Ho.
  apply IZR_le in He, Hh, Hr, Hu, Hs, Hg, Hv, Hd, Ho.
  split.
  - rewrite calculateConnectivityScore_eq. unfold metric_value.
    rewrite !or_zero_parseInt. unfold design_counts, Num.of_Z.
    cbn [extends hasEquivalencesWith reliesOn usedBy specializes generalizes
         Num.or_zero].
    apply score_of_Fin; lra.
  - apply spec_score_range; assumption.
Qed.

Lemma score_is_capped_formula_witness :
  calculateConnectivityScore sample_adoption (design_counts 3 0 5 2 0 1)
  = Fin (spec_score 3 0 5 2 0 1 630 12 48000).
Proof.
  apply (score_is_capped_formula sample_adoption 3 0 5 2 0 1);
    vm_compute; discriminate.
Defined.

(** C1, counterexample. With [occurrencesInDatasets] the string "-500"
    and every other metric zero the score is the formula's value, and it
    is negative: the code caps the score at 1 and has no lower clamp. *)
Lemma score_negative_occurrences :
  calculateConnectivityScore negative_occurrences (design_counts 0 0 0 0 0 0)
  = Fin (spec_score 0 0 0 0 0 0 0 0 (-500))
  /\ Num.lt (calculateConnectivityScore negative_occurrences
               (design_counts 0 0 0 0 0 0)) (Fin 0).
Proof.
  assert (E : calculateConnectivityScore negative_occurrences
                (design_counts 0 0 0 0 0 0)
              = Fin (spec_score 0 0 0 0 0 0 0 0 (-500))).
  { rewrite calculateConnectivityScore_eq. unfold metric_value.
    rewrite !or_zero_parseInt.
    change (adoption_count (occurrencesInDatasets negative_occurrences))
      with (-500)%Z.
    change (adoption_count (reusedByDatasets negative_occurrences)) with 0%Z.
    change (adoption_count (reusedByVocabularies negative_occurrences)) with 0%Z.
    unfold design_counts, Num.of_Z. simpl.
    apply score_of_Fin; lra. }
  split; [exact E|]. rewrite E. simpl. unfold spec_score.
  replace (1 + 0) with 1 by lra. rewrite ln_1.
  assert (L : ln (1 + -500 / 1000) < 0).
  { rewrite <- ln_1. apply ln_increasing; lra. }
  eapply Rle_lt_trans; [apply Rmin_r|]. lra.
Qed.

(** C5. For valid metrics (every adoption field a string that writes a
    non-negative integer, every design count a non-negative integer) the
    score is a number in the closed interval from 0 to 1. *)
Theorem score_in_unit_interval a e h r u s g :
  valid_adoption a ->
  (0 <= e)%Z -> (0 <= h)%Z -> (0 <= r)%Z -> (0 <= u)%Z -> (0 <= s)%Z -> (0 <= g)%Z ->
  exists x, calculateConnectivityScore a (design_counts e h r u s g) = Fin x
            /\ 0 <= x <= 1.
Proof.
  intros ([s1 [E1 V1]] & [s2 [E2 V2]] & [s3 [E3 V3]]) He Hh Hr Hu Hs Hg.
  eexists. apply score_counts; try assumption.
  - rewrite E1. apply count_string_nonneg, V1.
  - rewrite E2. apply count_string_nonneg, V2.
  - rewrite E3. apply count_string_nonneg, V3.
Qed.

Lemma score_in_unit_interval_witness :
  exists x, calculateConnectivityScore sample_adoption (design_counts 3 0 5 2 0 1) = Fin x
            /\ 0 <= x <= 1.
Proof.
  apply (score_in_unit_interval sample_adoption 3 0 5 2 0 1); try lia.
  repeat split; eexists; (split; [reflexivity | vm_compute; reflexivity]).
Defined.

(** C6. When every adoption field is "0" (or 0) and every design count is
    0, the score is exactly 0. *)
Theorem score_all_zero a :
  (reusedByVocabularies a = Some (JStr "0") \/ reusedByVocabularies a = Some (JNum 0)) ->
  (reusedByDatasets a = Some (JStr "0") \/ reusedByDatasets a = Some (JNum 0)) ->
  (occurrencesInDatasets a = Some (JStr "0") \/ occurrencesInDatasets a = Some (JNum 0)) ->
  calculateConnectivityScore a (design_counts 0 0 0 0 0 0) = Fin 0.
Proof.
  intros H1 H2 H3.
  assert (E1 : adoption_count (reusedByVocabularies a) = 0%Z)
    by (destruct H1 as [-> | ->]; reflexivity).
  assert (E2 : adoption_count (reusedByDatasets a) = 0%Z)
    by (destruct H2 as [-> | ->]; reflexivity).
  assert (E3 : adoption_count (occurrencesInDatasets a) = 0%Z)
    by (destruct H3 as [-> | ->]; reflexivity).
  destruct (score_counts a 0 0 0 0 0 0) as [E _]; try lia.
  rewrite E, E1, E2, E3. f_equal. apply spec_score_zero.
Qed.

Lemma score_all_zero_witness :
  calculateConnectivityScore default_adoption (design_counts 0 0 0 0 0 0) = Fin 0.
Proof. apply (score_all_zero default_adoption); left; reflexivity. Defined.

End ScoreClaims.

Section Monotonicity.

Local Open Scope R_scope.

(** One step inwards through the expression of [score_of]. *)
Ltac peel H :=
  match type of H with
  | Num.lt (Math_min ?c ?x) (Math_min ?c ?y) => apply (reflects_min c x y) in H
  | Num.lt (Num.div ?x (Fin ?k)) (Num.div ?y (Fin ?k)) =>
      apply (reflects_div_pos k ltac:(lra) x y) in H
  | Num.lt (Num.mul (Fin ?k) ?x) (Num.mul (Fin ?k) ?y) =>
      apply (reflects_mul_pos k ltac:(lra) x y) in H
  | Num.lt (Num.add ?x ?c) (Num.add ?y ?c) => apply (reflects_add_l c x y) in H
  | Num.lt (Num.add ?c ?x) (Num.add ?c ?y) => apply (reflects_add_r c x y) in H
  | Num.lt (log1p ?x) (log1p ?y) => apply (reflects_log1p x y) in H
  | Num.lt (Math_log ?x) (Math_log ?y) => apply (reflects_log x y) in H
  end.

(** In each of its nine arguments [score_of] reflects [<]. *)
Lemma score_of_reflects (f : MetricField) (x y e h r u s g v d o : Number) :
  let at_ (z : Number) :=
    match f with
    | F_extends => score_of z h r u s g v d o
    | F_hasEquivalencesWith => score_of e z r u s g v d o
    | F_reliesOn => score_of e h z u s g v d o
    | F_usedBy => score_of e h r z s g v d o
    | F_specializes => score_of e h r u z g v d o
    | F_generalizes => score_of e h r u s z v d o
    | F_reusedByVocabularies => score_of e h r u s g z d o
    | F_reusedByDatasets => score_of e h r u s g v z o
    | F_occurrencesInDatasets => score_of e h r u s g v d z
    end in
  Num.lt (at_ x) (at_ y) -> Num.lt x y.
Proof.
  intros at_ H. subst at_. destruct f; unfold score_of in H;
    repeat peel H; exact H.
Qed.

(** C4. Take two pairs of metric records that agree on every metric but
    one, and let that one be larger in the second pair. Then the score of
    the second pair is not less than the score of the first; when both
    scores are numbers, the first is at most the second. *)
Theorem score_monotone (f : MetricField) a d a' d' :
  Num.lt (metric_value f a d) (metric_value f a' d') ->
  (forall g, g <> f -> metric_value g a' d' = metric_value g a d) ->
  ~ Num.lt (calculateConnectivityScore a' d') (calculateConnectivityScore a d)
  /\ (calculateConnectivityScore a d <> NaN ->
      calculateConnectivityScore a' d' <> NaN ->
      Num.le (calculateConnectivityScore a d) (calculateConnectivityScore a' d')).
Proof.
  intros Hlt Hsame.
  assert (Hnd : ~ Num.lt (calculateConnectivityScore a' d')
                         (calculateConnectivityScore a d)).
  { intros Hdec. apply (num_lt_asym _ _ Hlt).
    rewrite !calculateConnectivityScore_eq in Hdec.
    destruct f;
      repeat match type of Hdec with
        | context [metric_value ?g a' d'] =>
            rewrite (Hsame g ltac:(discriminate)) in Hdec
        end.
    - exact (score_of_reflects F_extends _ _ (Fin 0) _ _ _ _ _ _ _ _ Hdec).
    - exact (score_of_reflects F_hasEquivalencesWith _ _ _ (Fin 0) _ _ _ _ _ _ _ Hdec).
    - exact (score_of_reflects F_reliesOn _ _ _ _ (Fin 0) _ _ _ _ _ _ Hdec).
    - exact (score_of_reflects F_usedBy _ _ _ _ _ (Fin 0) _ _ _ _ _ Hdec).
    - exact (score_of_reflects F_specializes _ _ _ _ _ _ (Fin 0) _ _ _ _ Hdec).
    - exact (score_of_reflects F_generalizes _ _ _ _ _ _ _ (Fin 0) _ _ _ Hdec).
    - exact (score_of_reflects F_reusedByVocabularies _ _ _ _ _ _ _ _ (Fin 0) _ _ Hdec).
    - exact (score_of_reflects F_reusedByDatasets _ _ _ _ _ _ _ _ _ (Fin 0) _ Hdec).
    - exact (score_of_reflects F_occurrencesInDatasets _ _ _ _ _ _ _ _ _ _ (Fin 0) Hdec). }
  split; [exact Hnd|]. intros H1 H2. apply num_le_of_not_lt; assumption.
Qed.

Lemma score_monotone_witness :
  ~ Num.lt (calculateConnectivityScore more_occurrences default_design)
           (calculateConnectivityScore default_adoption default_design)
  /\ Num.le (calculateConnectivityScore default_adoption default_design)
            (calculateConnectivityScore more_occurrences default_design).
Proof.
  destruct (score_monotone F_occurrencesInDatasets
              default_adoption default_design more_occurrences default_design)
    as [H1 H2].
  - unfold metric_value. rewrite !or_zero_parseInt.
    change (adoption_count (occurrencesInDatasets default_adoption)) with 0%Z.
    change (adoption_count (occurrencesInDatasets more_occurrences)) with 2000%Z.
    simpl. lra.
  - intros g Hg. destruct g; try reflexivity. contradiction.
  - split; [exact H1|]. apply H2.
    + rewrite score_defaults. discriminate.
    + change default_design with (design_counts 0 0 0 0 0 0).
      destruct (score_counts more_occurrences 0 0 0 0 0 0) as [E _];
        try (vm_compute; discriminate).
      rewrite E. discriminate.
Defined.

End Monotonicity.

Section Sorting.

Local Open Scope R_scope.

Lemma num_le_trans x y z : Num.le x y -> Num.le y z -> Num.le x z.
Proof. destruct x, y, z; simpl; try tauto; lra. Qed.

Lemma num_lt_le x y : Num.lt x y -> Num.le x y.
Proof. destruct x, y; simpl; try tauto; lra. Qed.

(** The comparator is positive exactly when its first argument scores
    less, provided neither score is NaN. *)
Lemma by_score_desc_positive a b :
  connectivityScore a <> NaN -> connectivityScore b <> NaN ->
  comparator_positive (by_score_desc a b) = true
  <-> Num.lt (connectivityScore a) (connectivityScore b).
Proof.
  unfold by_score_desc, Num.sub.
  destruct (connectivityScore a) as [| | |x], (connectivityScore b) as [| | |y];
    simpl; intros Ha Hb; try contradiction; try tauto;
    try (split; [discriminate | tauto]).
  destruct (Rlt_dec 0 (y + - x)); split; try discriminate; try reflexivity; lra.
Qed.

(** A positive comparator result separates the two scores. *)
Lemma by_score_desc_positive_neq a b :
  comparator_positive (by_score_desc a b) = true ->
  connectivityScore a <> connectivityScore b.
Proof.
  unfold by_score_desc, Num.sub.
  destruct (connectivityScore a) as [| | |x], (connectivityScore b) as [| | |y];
    simpl; try discriminate.
  destruct (Rlt_dec 0 (y + - x)); [|discriminate].
  intros _ [= E]. lra.
Qed.

Lemma sort_insert_perm {A} (cmp : A -> A -> Number) x l :
  Permutation (x :: l) (sort_insert cmp x l).
Proof.
  induction l as [|y l IH]; simpl; [reflexivity|].
  destruct (comparator_positive (cmp x y)); [|reflexivity].
  rewrite perm_swap. apply perm_skip, IH.
Qed.

Lemma Array_sort_perm {A} (cmp : A -> A -> Number) l :
  Permutation l (Array_sort cmp l).
Proof.
  induction l as [|x l IH]; simpl; [reflexivity|].
  rewrite <- sort_insert_perm. apply perm_skip, IH.
Qed.

Lemma sort_insert_with_score v x l :
  with_score v (sort_insert by_score_desc x l) = with_score v (x :: l).
Proof.
  unfold with_score. induction l as [|y l IH]; simpl; [reflexivity|].
  destruct (comparator_positive (by_score_desc x y)) eqn:Hc; [|reflexivity].
  apply by_score_desc_positive_neq in Hc.
  rewrite (filter_cons _ y (sort_insert _ _ _)), IH.
  rewrite !filter_cons.
  repeat case_decide; congruence.
Qed.

Lemma Array_sort_with_score v l :
  with_score v (Array_sort by_score_desc l) = with_score v l.
Proof.
  induction l as [|x l IH]; simpl; [reflexivity|].
  rewrite sort_insert_with_score. unfold with_score in *.
  rewrite !filter_cons, IH. reflexivity.
Qed.

Lemma sort_insert_descending x l :
  connectivityScore x <> NaN ->
  Forall (fun m => connectivityScore m <> NaN) l ->
  descending l -> descending (sort_insert by_score_desc x l).
Proof.
  intros Hx Hl Hs. induction Hs as [|y l Hs IH Hy]; simpl.
  - repeat constructor.
  - inversion Hl as [|? ? Hyn Hln]; subst.
    destruct (comparator_positive (by_score_desc x y)) eqn:Hc.
    + apply by_score_desc_positive in Hc; [|assumption..].
      constructor; [apply IH, Hln|].
      rewrite <- sort_insert_perm. constructor; [apply num_lt_le, Hc | exact Hy].
    + assert (Hle : Num.le (connectivityScore y) (connectivityScore x)).
      { apply num_le_of_not_lt; [assumption..|]. intros Hlt.
        apply by_score_desc_positive in Hlt; [congruence|assumption..]. }
      constructor; [constructor; assumption|].
      constructor; [exact Hle|].
      eapply Forall_impl; [exact Hy|]. simpl. intros z Hz.
      eapply num_le_trans; eassumption.
Qed.

Lemma Array_sort_descending l :
  Forall (fun m => connectivityScore m <> NaN) l ->
  descending (Array_sort by_score_desc l).
Proof.
  induction 1 as [|x l Hx Hl IH]; simpl; [constructor|].
  apply sort_insert_descending; [exact Hx | | exact IH].
  rewrite <- Array_sort_perm. exact Hl.
Qed.

End Sorting.

Section Merge.

Local Open Scope R_scope.

Lemma merge_entry_eq A D r :
  merge_entry A D r
  = if mergeable A r then Ok (merged_record A D r) else Throw TypeError.
Proof.
  destruct r; [reflexivity|..];
    unfold merge_entry, mergeable, merged_record, row_key,
      calculateConnectivityScore_call, parseInt_call, ToString_call, and_then;
    cbn [get_prop];
    repeat match goal with
           | |- context [printable_val ?v] => destruct (printable_val v)
           end; reflexivity.
Qed.

Lemma merge_results_eq A D rows :
  merge_results A D rows
  = if forallb (mergeable A) rows then Ok (List.map (merged_record A D) rows)
    else Throw TypeError.
Proof.
  unfold merge_results. induction rows as [|r rows IH]; [reflexivity|].
  cbn [map_throwing forallb List.map]. rewrite merge_entry_eq, IH.
  destruct (mergeable A r); [|reflexivity].
  destruct (forallb (mergeable A) rows); reflexivity.
Qed.

Lemma merge_results_ok A D rows :
  forallb (mergeable A) rows = true ->
  merge_results A D rows = Ok (List.map (merged_record A D) rows).
Proof. intros H. rewrite merge_results_eq, H. reflexivity. Qed.

Lemma merge_results_inv A D rows merged :
  merge_results A D rows = Ok merged ->
  merged = List.map (merged_record A D) rows.
Proof.
  rewrite merge_results_eq. destruct (forallb (mergeable A) rows); congruence.
Qed.

(** The merge step is reached only with rows none of which is [null]: the
    URIs have been read from each of them. *)
Lemma collect_uris_rows rows uris :
  collect_uris rows = Ok uris -> Forall (fun r => r <> JNull) rows.
Proof.
  unfold collect_uris.
  destruct (map_throwing _ rows) as [vs|e] eqn:E; [|discriminate]. intros _.
  revert vs E. induction rows as [|r rows IH]; intros vs E; [constructor|].
  simpl in E. destruct r; try discriminate;
    (destruct (map_throwing _ rows) as [vs'|] eqn:E'; [|discriminate]);
    (constructor; [discriminate | exact (IH vs' eq_refl)]).
Qed.

(** What the merge step gives when it returns: one record per search row, in
    the order of the rows; the defaults for a key that the mapping neither
    holds nor inherits; and score 0 for a record with all-default metrics. *)
Lemma merge_results_records
    (A : gmap string AdoptionMetrics) (D : gmap string DesignMetrics)
    (rows : list json) (merged : list RankedEntry) :
  merge_results A D rows = Ok merged ->
  length merged = length rows
  /\ List.map entry merged = rows
  /\ forall m, In m merged ->
       let key := row_key (entry m) in
       (A !! key = None -> A !! "__proto__" = None ->
        is_object_prototype_member key = false ->
        adoptionData m = default_adoption)
       /\ (D !! key = None -> D !! "__proto__" = None ->
           is_object_prototype_member key = false ->
           designData m = default_design)
       /\ (adoptionData m = default_adoption ->
           designData m = default_design ->
           connectivityScore m = Fin 0).
Proof.
  intros E. rewrite (merge_results_inv A D rows merged E).
  split; [apply List.length_map|].
  split.
  - rewrite List.map_map. simpl. apply List.map_id.
  - intros m Hm. apply List.in_map_iff in Hm as (r & <- & _).
    cbn [merged_record entry adoptionData designData connectivityScore].
    repeat split.
    + intros E1 E2 E3. unfold read_adoption. rewrite E1, E2, E3. reflexivity.
    + intros E1 E2 E3. unfold read_design. rewrite E1, E2, E3. reflexivity.
    + intros -> ->. apply score_defaults.
Qed.

(** C3, the failing input. One search row whose [uri] is [constructor], and
    two mappings without an entry. The read of either mapping finds
    [Object.prototype.constructor], a function and so truthy, and the
    defaults after [||] are not taken: the merged record holds a value
    without metric fields where its adoption and its design metrics should
    be the defaults. Its score is 0 all the same. *)
Theorem merge_inherited_key :
  merge_results ∅ ∅ [row_constructor]
  = Ok [ {| entry := row_constructor;
            adoptionData := no_adoption_fields;
            designData := no_design_fields;
            connectivityScore := Fin 0 |} ]
  /\ (∅ : gmap string AdoptionMetrics) !! row_key row_constructor = None
  /\ (∅ : gmap string DesignMetrics) !! row_key row_constructor = None
  /\ no_adoption_fields <> default_adoption
  /\ no_design_fields <> default_design.
Proof.
  split; [|repeat split; try apply lookup_empty; discriminate].
  rewrite merge_results_ok by reflexivity.
  cbn [List.map]. unfold merged_record.
  change (read_adoption ∅ (row_key row_constructor)) with no_adoption_fields.
  change (read_design ∅ (row_key row_constructor)) with no_design_fields.
  rewrite score_no_fields. reflexivity.
Qed.

(** Steps 3 and 4 together: the sorted list is a permutation of the merged
    one; when no score is NaN it is in descending order and the records of
    any one score keep their order. *)
Lemma merge_and_rank_sorted
    (A : gmap string AdoptionMetrics) (D : gmap string DesignMetrics)
    (rows : list json) (enhanced : list RankedEntry) :
  merge_results A D rows = Ok enhanced ->
  exists final,
    merge_and_rank A D rows = Ok final
    /\ Permutation enhanced final
    /\ (Forall (fun m => connectivityScore m <> NaN) enhanced ->
        descending final
        /\ forall v, with_score v final = with_score v enhanced).
Proof.
  intros E. exists (Array_sort by_score_desc enhanced).
  unfold merge_and_rank. rewrite E.
  split; [reflexivity|]. split; [apply Array_sort_perm|].
  intros Hnan. split; [apply Array_sort_descending, Hnan|].
  intros v. apply Array_sort_with_score.
Qed.

Lemma log1p_below x : 1 + x < 0 -> log1p (Fin x) = NaN.
Proof.
  intros Hx. unfold log1p. simpl. destruct (Rlt_dec (1 + x) 0); [reflexivity|lra].
Qed.

Lemma score_of_NaN e h r u s g v d o :
  1 + v < 0 -> score_of e h r u s g (Fin v) d o = NaN.
Proof.
  intros Hv. unfold score_of. rewrite (log1p_below v Hv).
  match goal with |- context [Num.mul (Fin 0.6) ?t] => destruct (Num.mul (Fin 0.6) t) end;
    reflexivity.
Qed.

Lemma ln_2_lt_1 : ln 2 < 1.
Proof.
  rewrite <- (ln_exp 1). apply ln_increasing; [lra|].
  pose proof (exp_ineq1 1). lra.
Qed.

Lemma score_A_lt_score_C :
  spec_score 1 0 0 0 0 0 0 0 0 < spec_score 2 0 0 0 0 0 0 0 0.
Proof.
  unfold spec_score. replace (1 + 0 / 1000) with 1 by lra.
  replace (1 + 0) with 1 by lra. rewrite ln_1.
  replace (1 + 1) with 2 by lra. replace (1 + 2) with 3 by lra.
  pose proof ln_2_lt_1.
  assert (ln 2 < ln 3) by (apply ln_increasing; lra).
  eapply Rle_lt_trans; [apply Rmin_r|].
  apply Rmin_glb_lt; lra.
Qed.

(** Rows A, B, C with the mappings of [nan_bindings]: B's score is NaN, and
    the sort leaves A, B, C as they are although A scores less than C. *)
Lemma merge_and_rank_with_NaN :
  match merge_and_rank nan_adoption_map nan_design_map [row_A; row_B; row_C] with
  | Ok [x; y; z] =>
      entry x = row_A /\ entry y = row_B /\ entry z = row_C
      /\ connectivityScore y = NaN
      /\ Num.lt (connectivityScore x) (connectivityScore z)
      /\ ~ descending [x; y; z]
  | _ => False
  end.
Proof.
  unfold merge_and_rank.
  rewrite merge_results_ok by reflexivity.
  assert (EA : connectivityScore (merged_record nan_adoption_map nan_design_map row_A)
               = Fin (spec_score 1 0 0 0 0 0 0 0 0)).
  { destruct (score_counts default_adoption 1 0 0 0 0 0) as [E _];
      try (vm_compute; discriminate). exact E. }
  assert (EC : connectivityScore (merged_record nan_adoption_map nan_design_map row_C)
               = Fin (spec_score 2 0 0 0 0 0 0 0 0)).
  { destruct (score_counts default_adoption 2 0 0 0 0 0) as [E _];
      try (vm_compute; discriminate). exact E. }
  assert (EB : connectivityScore (merged_record nan_adoption_map nan_design_map row_B)
               = NaN).
  { change (connectivityScore (merged_record nan_adoption_map nan_design_map row_B))
      with (calculateConnectivityScore
              {| reusedByVocabularies := Some (JStr "-5");
                 reusedByDatasets := Some (JStr "0");
                 occurrencesInDatasets := Some (JStr "0") |} default_design).
    rewrite calculateConnectivityScore_eq. unfold metric_value.
    rewrite !or_zero_parseInt.
    change (adoption_count (reusedByVocabularies _)) with (-5)%Z.
    unfold Num.of_Z at 1. apply score_of_NaN. lra. }
  assert (NA : entry (merged_record nan_adoption_map nan_design_map row_A) = row_A)
    by reflexivity.
  assert (NB : entry (merged_record nan_adoption_map nan_design_map row_B) = row_B)
    by reflexivity.
  assert (NC : entry (merged_record nan_adoption_map nan_design_map row_C) = row_C)
    by reflexivity.
  cbn [List.map].
  generalize dependent (merged_record nan_adoption_map nan_design_map row_A).
  generalize dependent (merged_record nan_adoption_map nan_design_map row_B).
  generalize dependent (merged_record nan_adoption_map nan_design_map row_C).
  intros mC EC NC mB EB NB mA EA NA.
  unfold Array_sort.
  do 2 (cbn [foldr sort_insert]; unfold by_score_desc;
        rewrite ?EA, ?EB, ?EC;
        cbn [Num.sub Num.neg Num.add comparator_positive]).
  rewrite EA, EB, EC.
  pose proof score_A_lt_score_C as Hlt.
  repeat split; try assumption.
  intros Hd. inversion Hd as [|? ? _ Hall]; subst.
  inversion Hall as [|? ? HB _]; subst.
  rewrite EB in HB. exact HB.
Qed.

End Merge.

Section Pipeline.

Lemma all_whitespace_trim s : all_whitespace s = true -> trim_is_empty s = true.
Proof.
  unfold trim_is_empty. induction s as [|c r IH]; simpl; [reflexivity|].
  intros H. apply andb_true_iff in H as [Hc Hr]. rewrite Hc. apply IH, Hr.
Qed.

(** C7. For a search term that is empty or all white space,
    [performSearch] stores the empty list and [searchLOV] returns the empty
    list; neither issues a request. *)
Theorem blank_term_no_network (net : Network) (term : string) (w : World) :
  all_whitespace term = true ->
  performSearch net term w
  = (Ok tt,
     {| requests := requests w;
        console := console w;
        app := {| searchTerm := searchTerm (app w);
                  loading := loading (app w);
                  searchResults := [];
                  error := error (app w) |} |})
  /\ searchLOV net term w = (Ok (JArr []), w).
Proof.
  intros H. apply all_whitespace_trim in H.
  unfold performSearch, searchLOV. rewrite H. split; reflexivity.
Qed.

Lemma blank_term_no_network_witness :
  requests (snd (performSearch missing_bindings_net "  " empty_world)) = []
  /\ searchLOV missing_bindings_net "  " empty_world = (Ok (JArr []), empty_world).
Proof.
  destruct (blank_term_no_network missing_bindings_net "  " empty_world) as [E1 E2].
  - reflexivity.
  - rewrite E1. split; [reflexivity | exact E2].
Defined.

(** *** Computations that leave the React state alone *)

Lemma keeps_app_ret {A} (a : A) : keeps_app (ret a).
Proof. intros w. reflexivity. Qed.

Lemma keeps_app_throw {A} e : keeps_app (@throw A e).
Proof. intros w. reflexivity. Qed.

Lemma keeps_app_lift {A} (o : Outcome A) : keeps_app (lift o).
Proof. intros w. reflexivity. Qed.

Lemma keeps_app_bind {A B} (m : M A) (k : A -> M B) :
  keeps_app m -> (forall a, keeps_app (k a)) -> keeps_app (bind m k).
Proof.
  intros Hm Hk w. unfold bind. specialize (Hm w).
  destruct (m w) as [[a|e] w1]; simpl in *; [|exact Hm].
  rewrite Hk. exact Hm.
Qed.

Lemma keeps_app_try_catch {A} (m : M A) (h : exn -> M A) :
  keeps_app m -> (forall e, keeps_app (h e)) -> keeps_app (try_catch m h).
Proof.
  intros Hm Hh w. unfold try_catch. specialize (Hm w).
  destruct (m w) as [[a|e] w1]; simpl in *; [exact Hm|].
  rewrite Hh. exact Hm.
Qed.

Lemma keeps_app_promise_all {A B} (m1 : M A) (m2 : M B) :
  keeps_app m1 -> keeps_app m2 -> keeps_app (promise_all m1 m2).
Proof.
  intros H1 H2 w. unfold promise_all. specialize (H1 w).
  destruct (m1 w) as [r1 w1]. specialize (H2 w1).
  destruct (m2 w1) as [r2 w2]. simpl in *. congruence.
Qed.

Lemma keeps_app_fetch net req : keeps_app (fetch net req).
Proof. intros w. unfold fetch. destruct (net req); reflexivity. Qed.

Lemma keeps_app_console_error label e : keeps_app (console_error label e).
Proof. intros w. reflexivity. Qed.

Lemma keeps_app_response_json body : keeps_app (response_json body).
Proof. destruct body; [apply keeps_app_ret | apply keeps_app_throw]. Qed.

Create HintDb keeps discriminated.

Hint Resolve keeps_app_ret keeps_app_throw keeps_app_lift keeps_app_fetch
  keeps_app_console_error keeps_app_response_json : keeps.

Ltac keeps :=
  repeat first
    [ apply keeps_app_bind; [|intros ?]
    | apply keeps_app_try_catch; [|intros ?]
    | apply keeps_app_promise_all
    | match goal with |- keeps_app (if ?b then _ else _) => destruct b end
    | solve [auto with keeps] ].

Lemma keeps_app_executeSPARQLQuery net query : keeps_app (executeSPARQLQuery net query).
Proof. unfold executeSPARQLQuery. keeps. Qed.

Lemma keeps_app_searchLOV net term : keeps_app (searchLOV net term).
Proof. unfold searchLOV. keeps. Qed.

Lemma keeps_app_getAdoptionConvergenceData net uris :
  keeps_app (getAdoptionConvergenceData net uris).
Proof.
  unfold getAdoptionConvergenceData. destruct uris; [apply keeps_app_ret|].
  apply keeps_app_bind; [apply keeps_app_lift|intros ?].
  apply keeps_app_bind; [apply keeps_app_executeSPARQLQuery|intros ?]. keeps.
Qed.

Lemma keeps_app_getDesignConvergenceData net uris :
  keeps_app (getDesignConvergenceData net uris).
Proof.
  unfold getDesignConvergenceData. destruct uris; [apply keeps_app_ret|].
  apply keeps_app_bind; [apply keeps_app_lift|intros ?].
  apply keeps_app_bind; [apply keeps_app_executeSPARQLQuery|intros ?]. keeps.
Qed.

Lemma throws_clean_keeps {A} (m : M A) : keeps_app m -> throws_clean m.
Proof. intros H w e w' E. specialize (H w). rewrite E in H. exact H. Qed.

Lemma throws_clean_bind {A B} (m : M A) (k : A -> M B) :
  keeps_app m -> (forall a, throws_clean (k a)) -> throws_clean (bind m k).
Proof.
  intros Hm Hk w e w'. unfold bind. specialize (Hm w).
  destruct (m w) as [[a|e1] w1]; simpl in Hm.
  - intros E. rewrite (Hk a _ _ _ E). exact Hm.
  - intros [= _ <-]. exact Hm.
Qed.

Lemma performSearch_try_throws_clean net term :
  throws_clean (performSearch_try net term).
Proof.
  unfold performSearch_try.
  apply throws_clean_bind; [apply keeps_app_searchLOV|intros lovResults].
  apply throws_clean_bind; [apply keeps_app_lift|intros len].
  destruct (is_zero len).
  - intros w e w' E. discriminate E.
  - apply throws_clean_bind; [apply keeps_app_lift|intros rows].
    apply throws_clean_bind; [apply keeps_app_lift|intros uris].
    apply throws_clean_bind; [|intros maps].
    { apply keeps_app_promise_all;
        [apply keeps_app_getAdoptionConvergenceData
        |apply keeps_app_getDesignConvergenceData]. }
    apply throws_clean_bind; [apply keeps_app_lift|intros enhanced].
    intros w e w' E. discriminate E.
Qed.

Lemma performSearch_searching net term w :
  trim_is_empty term = false ->
  performSearch net term w
  = try_finally
      (try_catch
         (performSearch_try net term)
         (fun err =>
            console_error "Search error:" err ;;;
            setError (Some search_failed)))
      (setLoading false) (searching w).
Proof. intros H. unfold performSearch. rewrite H. reflexivity. Qed.

(** C10. When the [try] block of [performSearch] throws, [performSearch]
    itself returns; the stored results are the ones from before the call,
    the error is the generic message and the loading flag is false. *)
Theorem search_failure_state (net : Network) (term : string) (w : World) (e : exn) :
  trim_is_empty term = false ->
  fst (performSearch_try net term (searching w)) = Throw e ->
  fst (performSearch net term w) = Ok tt
  /\ app (snd (performSearch net term w))
     = {| searchTerm := searchTerm (app w);
          loading := false;
          searchResults := searchResults (app w);
          error := Some "Search failed. Please try again." |}.
Proof.
  intros Hterm Hthrow. rewrite (performSearch_searching net term w Hterm).
  unfold try_finally, try_catch.
  destruct (performSearch_try net term (searching w)) as [r w'] eqn:E.
  simpl in Hthrow. subst r.
  apply performSearch_try_throws_clean in E.
  simpl. rewrite E. split; reflexivity.
Qed.

Lemma search_failure_state_witness :
  error (app (snd (performSearch missing_bindings_net "person" empty_world)))
  = Some "Search failed. Please try again."
  /\ searchResults (app (snd (performSearch missing_bindings_net "person" empty_world)))
     = [].
Proof.
  destruct (search_failure_state missing_bindings_net "person" empty_world TypeError)
    as [_ E].
  - reflexivity.
  - vm_compute. reflexivity.
  - rewrite E. split; reflexivity.
Defined.

(** *** What a successful search stores *)

(** When the keyword search returns an array of rows and the [try] block
    completes, the stored list is the merge and sort of those rows under
    some pair of mappings. *)
Lemma performSearch_try_rows net term w rows :
  fst (searchLOV net term w) = Ok (JArr rows) ->
  fst (performSearch_try net term w) = Ok tt ->
  exists A D final,
    merge_and_rank A D rows = Ok final
    /\ searchResults (app (snd (performSearch_try net term w))) = final.
Proof.
  unfold performSearch_try, bind, lift.
  destruct (searchLOV net term w) as [[lov|e] w1]; [|discriminate].
  cbn [fst]. intros [= ->]. cbn [get_prop get_own String.eqb Ascii.eqb Bool.eqb as_array].
  cbn beta iota.
  destruct (is_zero _) eqn:Hz.
  - intros _. assert (rows = []) as ->.
    { destruct rows; [reflexivity|discriminate Hz]. }
    exists ∅, ∅, []. split; reflexivity.
  - cbn beta iota.
    destruct (collect_uris rows) as [uris|e]; [|discriminate].
    cbn beta iota.
    destruct (promise_all _ _ w1) as [[maps|e] w2]; [|discriminate].
    destruct (merge_and_rank maps.1 maps.2 rows) as [final|e] eqn:E; [|discriminate].
    intros _. exists maps.1, maps.2, final. split; [exact E|reflexivity].
Qed.

(** A list in descending order that has two records or more has no NaN
    score: NaN is not below or above anything. *)
Lemma descending_no_NaN l :
  descending l -> (2 <= length l)%nat ->
  Forall (fun m => connectivityScore m <> NaN) l.
Proof.
  unfold descending. induction 1 as [|a l Hl IH Ha]; simpl; [lia|].
  intros Hlen. destruct l as [|b l']; [simpl in Hlen; lia|].
  assert (Hrest : Forall (fun m => connectivityScore m <> NaN) (b :: l')).
  { eapply Forall_impl; [exact Ha|]. intros m Hm E. cbn beta in Hm.
    rewrite E in Hm. exact Hm. }
  constructor; [|exact Hrest].
  inversion Ha as [|? ? Hb _]; subst. intros E. rewrite E in Hb.
  destruct (connectivityScore b); exact Hb.
Qed.

(** C2 (as amended). When the keyword search returns an array of rows and
    the search completes, the list it stores is a permutation of the merged
    records, of which there is one per search row, in the order of the rows.
    When no score is NaN the stored list is in non-increasing order of score
    and the records of any one score keep their search order. *)
Theorem ranking_sorted_and_stable
    (net : Network) (term : string) (w : World) (rows : list json) :
  trim_is_empty term = false ->
  fst (searchLOV net term (searching w)) = Ok (JArr rows) ->
  fst (performSearch_try net term (searching w)) = Ok tt ->
  exists A D enhanced,
    merge_results A D rows = Ok enhanced
    /\ List.map entry enhanced = rows
    /\ Permutation enhanced (searchResults (app (snd (performSearch net term w))))
    /\ (Forall (fun m => connectivityScore m <> NaN) enhanced ->
        descending (searchResults (app (snd (performSearch net term w))))
        /\ forall v, with_score v (searchResults (app (snd (performSearch net term w))))
                     = with_score v enhanced).
Proof.
  intros Hterm Hsearch Hok.
  destruct (performSearch_try_rows net term (searching w) rows Hsearch Hok)
    as (A & D & final & Hrank & Hstored).
  assert (Hsame : searchResults (app (snd (performSearch net term w))) = final).
  { rewrite (performSearch_searching net term w Hterm).
    unfold try_finally, try_catch.
    destruct (performSearch_try net term (searching w)) as [r w1].
    simpl in Hok, Hstored. subst r. exact Hstored. }
  rewrite Hsame. exists A, D.
  unfold merge_and_rank in Hrank.
  destruct (merge_results A D rows) as [enhanced|e] eqn:E; [|discriminate].
  destruct (merge_and_rank_sorted A D rows enhanced E) as (final' & E' & HP & HS).
  unfold merge_and_rank in E'. rewrite E in E'.
  assert (final' = final) as -> by congruence.
  exists enhanced. split; [reflexivity|].
  split; [exact (proj1 (proj2 (merge_results_records A D rows enhanced E)))|].
  split; [exact HP | exact HS].
Qed.

Lemma ranking_sorted_and_stable_witness :
  exists A D enhanced,
    merge_results A D [row_A; row_B; row_C] = Ok enhanced
    /\ List.map entry enhanced = [row_A; row_B; row_C]
    /\ Permutation enhanced
         (searchResults (app (snd (performSearch graph_down_net "person" empty_world)))).
Proof.
  destruct (ranking_sorted_and_stable graph_down_net "person" empty_world
              [row_A; row_B; row_C])
    as (A & D & enhanced & E & O & P & _).
  - reflexivity.
  - reflexivity.
  - reflexivity.
  - exists A, D, enhanced. auto.
Defined.

(** *** A search whose metadata holds a negative count *)

Lemma bind_ok {A B} (m : M A) (k : A -> M B) (w : World) (a : A) :
  fst (m w) = Ok a -> bind m k w = k a (snd (m w)).
Proof. unfold bind. destruct (m w) as [r w1]. simpl. intros ->. reflexivity. Qed.

Lemma nan_net_maps w :
  fst (promise_all
         (getAdoptionConvergenceData nan_net [JStr "A"; JStr "B"; JStr "C"])
         (getDesignConvergenceData nan_net [JStr "A"; JStr "B"; JStr "C"]) w)
  = Ok (nan_adoption_map, nan_design_map).
Proof. vm_compute. reflexivity. Qed.

(** With [nan_net] the list [performSearch] stores is the merge and sort of
    rows A, B, C under the two mappings. *)
Lemma nan_net_search_results final :
  merge_and_rank nan_adoption_map nan_design_map [row_A; row_B; row_C] = Ok final ->
  searchResults (app (snd (performSearch nan_net "person" empty_world))) = final.
Proof.
  intros E.
  rewrite (performSearch_searching nan_net "person" empty_world eq_refl).
  unfold try_finally, try_catch, performSearch_try.
  rewrite (bind_ok _ _ _ (JArr [row_A; row_B; row_C])) by reflexivity.
  rewrite (bind_ok _ _ _ (Some (JNum 3))) by reflexivity.
  cbn [is_zero Z.eqb].
  rewrite (bind_ok _ _ _ [row_A; row_B; row_C]) by reflexivity.
  rewrite (bind_ok _ _ _ [JStr "A"; JStr "B"; JStr "C"]) by reflexivity.
  rewrite (bind_ok _ _ _ (nan_adoption_map, nan_design_map)) by apply nan_net_maps.
  cbn [fst snd].
  rewrite (bind_ok _ _ _ final) by exact E.
  reflexivity.
Qed.

(** C2, counterexample. The registry finds rows A, B, C; the graph endpoint
    reports one [extends] link for A, two for C, and for B the reuse count
    "-5", so that B's score is NaN. The list [performSearch] stores is A, B,
    C: A comes before C and scores less. It is not in descending order, and
    neither is any other arrangement of the three records. *)
Lemma ranking_unsorted_with_NaN :
  match searchResults (app (snd (performSearch nan_net "person" empty_world))) with
  | [x; y; z] =>
      entry x = row_A /\ entry y = row_B /\ entry z = row_C
      /\ connectivityScore y = NaN
      /\ Num.lt (connectivityScore x) (connectivityScore z)
      /\ ~ descending [x; y; z]
      /\ forall l, Permutation [x; y; z] l -> ~ descending l
  | _ => False
  end.
Proof.
  pose proof merge_and_rank_with_NaN as H.
  destruct (merge_and_rank nan_adoption_map nan_design_map [row_A; row_B; row_C])
    as [final|] eqn:E; [|contradiction].
  rewrite (nan_net_search_results final E).
  destruct final as [|x [|y [|z [|]]]]; try contradiction.
  destruct H as (HA & HB & HC & Hy & Hlt & Hnd).
  repeat split; try assumption.
  intros l HP Hd.
  assert (Hlen : (2 <= length l)%nat).
  { rewrite <- (Permutation_length HP). simpl. lia. }
  pose proof (descending_no_NaN l Hd Hlen) as Hall.
  rewrite List.Forall_forall in Hall.
  apply (Hall y); [|exact Hy].
  eapply Permutation_in; [exact HP|]. right. left. reflexivity.
Qed.

End Pipeline.

Section RemoteClient.

Lemma no_sparql_searchLOV net term : no_sparql (searchLOV net term).
Proof.
  intros w. unfold searchLOV. destruct (trim_is_empty term); [reflexivity|].
  unfold try_catch, bind, fetch.
  assert (E : filter is_sparql (requests w ++ [SearchRequest term])%list
              = filter is_sparql (requests w)).
  { rewrite filter_app. cbn. apply app_nil_r. }
  destruct (net (SearchRequest term)) as [|status body]; [exact E|].
  cbn [fst snd]. destruct (response_ok status); [|exact E].
  destruct body as [data|]; [|exact E].
  cbn [negb ret throw response_json lift fst snd].
  destruct (get_prop (Some data) "results"); exact E.
Qed.

(** C8. When the keyword search finds no rows, [performSearch] stores the
    empty list and returns without a request to the graph endpoint; and
    either metadata fetcher, given no URI, returns the empty mapping
    without a request. *)
Theorem no_rows_no_metadata_queries (net : Network) (term : string) (w : World) :
  (forall w0, fst (searchLOV net term w0) = Ok (JArr [])) ->
  fst (performSearch net term w) = Ok tt
  /\ searchResults (app (snd (performSearch net term w))) = []
  /\ filter is_sparql (requests (snd (performSearch net term w)))
     = filter is_sparql (requests w)
  /\ getAdoptionConvergenceData net [] w = (Ok ∅, w)
  /\ getDesignConvergenceData net [] w = (Ok ∅, w).
Proof.
  intros Hnone.
  destruct (trim_is_empty term) eqn:Hterm.
  - unfold performSearch. rewrite Hterm. repeat split; reflexivity.
  - rewrite (performSearch_searching net term w Hterm).
    unfold try_finally, try_catch, performSearch_try, bind.
    pose proof (Hnone (searching w)) as Hr.
    pose proof (no_sparql_searchLOV net term (searching w)) as Hq.
    destruct (searchLOV net term (searching w)) as [r w1].
    simpl in Hr, Hq. subst r. cbn.
    repeat split; try reflexivity. exact Hq.
Qed.

Lemma no_rows_no_metadata_queries_witness :
  searchResults (app (snd (performSearch no_rows_net "person" empty_world))) = []
  /\ filter is_sparql (requests (snd (performSearch no_rows_net "person" empty_world)))
     = [].
Proof.
  destruct (no_rows_no_metadata_queries no_rows_net "person" empty_world)
    as (_ & E1 & E2 & _).
  - intros w0. reflexivity.
  - split; [exact E1 | exact E2].
Defined.

(** What does hold of the two clients: [searchLOV] never throws, and in
    either client a rejected fetch, a status outside 200..299 or a body that
    is not JSON gives the empty list and one line on the console. *)
Lemma searchLOV_returns net term w :
  exists v, fst (searchLOV net term w) = Ok v.
Proof.
  unfold searchLOV. destruct (trim_is_empty term); [eexists; reflexivity|].
  unfold try_catch, bind, fetch.
  destruct (net (SearchRequest term)) as [|status body]; [eexists; reflexivity|].
  cbn [fst snd]. destruct (response_ok status); [|eexists; reflexivity].
  destruct body as [data|]; [|eexists; reflexivity].
  cbn [negb ret throw response_json lift fst snd].
  destruct (get_prop (Some data) "results"); eexists; reflexivity.
Qed.

Lemma executeSPARQLQuery_transport_failure net query w :
  (net (SparqlRequest query) = FetchRejected
   \/ (exists status body, net (SparqlRequest query) = Response status body
                           /\ response_ok status = false)
   \/ (exists status, net (SparqlRequest query) = Response status None)) ->
  fst (executeSPARQLQuery net query w) = Ok (Some (JArr []))
  /\ length (console (snd (executeSPARQLQuery net query w))) = S (length (console w)).
Proof.
  unfold executeSPARQLQuery, try_catch, bind, fetch.
  intros [E | [(status & body & E & Hok) | (status & E)]]; rewrite E; cbn [fst snd].
  - cbn. rewrite length_app. cbn. split; [reflexivity|lia].
  - rewrite Hok. cbn. rewrite length_app. cbn. split; [reflexivity|lia].
  - destruct (response_ok status); cbn; rewrite length_app; cbn; split;
      try reflexivity; lia.
Qed.

Lemma searchLOV_transport_failure net term w :
  trim_is_empty term = false ->
  (net (SearchRequest term) = FetchRejected
   \/ (exists status body, net (SearchRequest term) = Response status body
                           /\ response_ok status = false)
   \/ (exists status, net (SearchRequest term) = Response status None)) ->
  fst (searchLOV net term w) = Ok (JArr [])
  /\ length (console (snd (searchLOV net term w))) = S (length (console w)).
Proof.
  intros Hterm. unfold searchLOV, try_catch, bind, fetch. rewrite Hterm.
  intros [E | [(status & body & E & Hok) | (status & E)]]; rewrite E; cbn [fst snd].
  - cbn. rewrite length_app. cbn. split; [reflexivity|lia].
  - rewrite Hok. cbn. rewrite length_app. cbn. split; [reflexivity|lia].
  - destruct (response_ok status); cbn; rewrite length_app; cbn; split;
      try reflexivity; lia.
Qed.

(** C9, the failing input. The graph endpoint answers 200 with the body
    [{"results": {}}]: [executeSPARQLQuery] returns [undefined], not the
    empty list, and logs nothing; the [forEach] of the metadata fetcher
    then throws a TypeError. *)
Theorem executeSPARQLQuery_missing_bindings (query : string) (w : World) :
  executeSPARQLQuery missing_bindings_net query w
  = (Ok None,
     {| requests := (requests w ++ [SparqlRequest query])%list;
        console := console w;
        app := app w |})
  /\ fst (getAdoptionConvergenceData missing_bindings_net [JStr "A"] w)
     = Throw TypeError.
Proof. split; reflexivity. Qed.

End RemoteClient.

(** * Further properties *)

(** ** The remote clients *)

Section Clients.

Lemma executeSPARQLQuery_requests net query w :
  requests (snd (executeSPARQLQuery net query w))
  = (requests w ++ [SparqlRequest query])%list.
Proof.
  unfold executeSPARQLQuery, try_catch, bind, fetch.
  destruct (net (SparqlRequest query)) as [|status body]; [reflexivity|].
  cbn [fst snd]. destruct (response_ok status); [|reflexivity].
  destruct body as [data|]; [|reflexivity].
  cbn [negb ret throw response_json lift fst snd].
  destruct (get_prop (Some data) "results") as [results|]; [|reflexivity].
  destruct (get_prop results "bindings"); reflexivity.
Qed.

Lemma searchLOV_requests net term w :
  trim_is_empty term = false ->
  requests (snd (searchLOV net term w)) = (requests w ++ [SearchRequest term])%list.
Proof.
  intros Hterm. unfold searchLOV, try_catch, bind, fetch. rewrite Hterm.
  destruct (net (SearchRequest term)) as [|status body]; [reflexivity|].
  cbn [fst snd]. destruct (response_ok status); [|reflexivity].
  destruct body as [data|]; [|reflexivity].
  cbn [negb ret throw response_json lift fst snd].
  destruct (get_prop (Some data) "results"); reflexivity.
Qed.

(** X1. [searchLOV] never throws: whatever the term and whatever the
    network does, it returns a value, having issued one request at most and
    left the React state alone. All that can throw in it, the encoding of the
    term included, is inside its [try] block. *)
Theorem searchLOV_never_throws (net : Network) (term : string) (w : World) :
  (exists v, fst (searchLOV net term w) = Ok v)
  /\ (requests (snd (searchLOV net term w)) = requests w
      \/ requests (snd (searchLOV net term w))
         = (requests w ++ [SearchRequest term])%list)
  /\ app (snd (searchLOV net term w)) = app w.
Proof.
  split; [apply searchLOV_returns|]. split; [|apply keeps_app_searchLOV].
  destruct (trim_is_empty term) eqn:Hterm.
  - left. unfold searchLOV. rewrite Hterm. reflexivity.
  - right. apply searchLOV_requests, Hterm.
Qed.

(** X2. On a failure of transport (rejected fetch, status outside 200..299,
    body that is not JSON) either client returns the empty list, writes
    exactly one line to the console and has issued exactly one request. *)
Theorem clients_degrade_to_empty (net : Network) (query term : string) (w : World) :
  transport_failure (net (SparqlRequest query)) ->
  transport_failure (net (SearchRequest term)) ->
  trim_is_empty term = false ->
  (fst (executeSPARQLQuery net query w) = Ok (Some (JArr []))
   /\ length (console (snd (executeSPARQLQuery net query w))) = S (length (console w))
   /\ requests (snd (executeSPARQLQuery net query w))
      = (requests w ++ [SparqlRequest query])%list)
  /\ (fst (searchLOV net term w) = Ok (JArr [])
      /\ length (console (snd (searchLOV net term w))) = S (length (console w))
      /\ requests (snd (searchLOV net term w))
         = (requests w ++ [SearchRequest term])%list).
Proof.
  intros Hq Hs Hterm. split.
  - destruct (executeSPARQLQuery_transport_failure net query w Hq) as [E1 E2].
    repeat split; [exact E1 | exact E2 | apply executeSPARQLQuery_requests].
  - destruct (searchLOV_transport_failure net term w Hterm Hs) as [E1 E2].
    repeat split; [exact E1 | exact E2 | apply searchLOV_requests, Hterm].
Qed.

Lemma clients_degrade_to_empty_witness :
  fst (executeSPARQLQuery unavailable_net "q" empty_world) = Ok (Some (JArr []))
  /\ fst (searchLOV unavailable_net "person" empty_world) = Ok (JArr []).
Proof.
  destruct (clients_degrade_to_empty unavailable_net "q" "person" empty_world)
    as [(E1 & _) (E2 & _)].
  - right. left. exists 503%nat, None. split; reflexivity.
  - right. left. exists 503%nat, None. split; reflexivity.
  - reflexivity.
  - split; [exact E1 | exact E2].
Defined.

(** X3. When the graph endpoint answers with a status in 200..299 and a
    body whose [results] has a [bindings] member, [executeSPARQLQuery]
    returns that member as it is and writes nothing to the console. *)
Theorem executeSPARQLQuery_returns_bindings
    (net : Network) (query : string) (w : World)
    (status : nat) (data results : json) (bindings : json) :
  net (SparqlRequest query) = Response status (Some data) ->
  response_ok status = true ->
  get_prop (Some data) "results" = Ok (Some results) ->
  get_prop (Some results) "bindings" = Ok (Some bindings) ->
  executeSPARQLQuery net query w
  = (Ok (Some bindings),
     {| requests := (requests w ++ [SparqlRequest query])%list;
        console := console w;
        app := app w |}).
Proof.
  intros Hnet Hok Hres Hb.
  unfold executeSPARQLQuery, try_catch, bind, fetch. rewrite Hnet.
  cbn [fst snd]. rewrite Hok.
  cbn [negb ret throw response_json lift fst snd].
  rewrite Hres, Hb. reflexivity.
Qed.

Lemma executeSPARQLQuery_returns_bindings_witness :
  fst (executeSPARQLQuery one_binding_net "q" empty_world) = Ok (Some (JArr [binding_A])).
Proof.
  rewrite (executeSPARQLQuery_returns_bindings one_binding_net "q" empty_world 200
             (JObj [("results", JObj [("bindings", JArr [binding_A])])])
             (JObj [("bindings", JArr [binding_A])])
             (JArr [binding_A])); reflexivity.
Defined.

(** X4. When the registry answers a search with a status in 200..299 and a
    JSON body other than [null], [searchLOV] returns the body's [results]
    when that is truthy and the empty list otherwise (a body without
    [results] is no error: nothing is written to the console). *)
Theorem searchLOV_returns_results
    (net : Network) (term : string) (w : World) (status : nat) (data : json) :
  trim_is_empty term = false ->
  net (SearchRequest term) = Response status (Some data) ->
  response_ok status = true ->
  data <> JNull ->
  searchLOV net term w
  = (Ok (js_or (get_own data "results") (JArr [])),
     {| requests := (requests w ++ [SearchRequest term])%list;
        console := console w;
        app := app w |}).
Proof.
  intros Hterm Hnet Hok Hdata.
  unfold searchLOV, try_catch, bind, fetch. rewrite Hterm, Hnet.
  cbn [fst snd]. rewrite Hok.
  cbn [negb ret throw response_json lift fst snd].
  destruct data; [contradiction|reflexivity..].
Qed.

Lemma searchLOV_returns_results_witness :
  fst (searchLOV no_rows_net "person" empty_world) = Ok (JArr []).
Proof.
  rewrite (searchLOV_returns_results no_rows_net "person" empty_world 200
             (JObj [("results", JArr [])])); try reflexivity.
  discriminate.
Defined.

End Clients.

(** ** The metadata fetchers *)

Lemma forEach_app {A S} (f : S -> A -> Outcome S) xs ys acc :
  forEach f (xs ++ ys) acc
  = match forEach f xs acc with
    | Ok acc' => forEach f ys acc'
    | Throw e => Throw e
    end.
Proof.
  revert acc. induction xs as [|x xs IH]; intros acc; simpl; [reflexivity|].
  destruct (f acc x); [apply IH | reflexivity].
Qed.

Lemma binding_value_truthy result k : truthy (binding_value result k) = true.
Proof.
  unfold binding_value, js_or.
  destruct (opt_chain (get_own result k) "value") as [v|]; [|reflexivity].
  destruct (truthy v) eqn:E; [exact E | reflexivity].
Qed.

Lemma json_null_dec (r : json) : {r = JNull} + {r <> JNull}.
Proof. destruct r; first [left; reflexivity | right; discriminate]. Defined.

(** Both callbacks have one shape: a binding on which the callback does not
    return throws a TypeError, a binding without a truthy [vocab.value] is
    skipped, any other binding is stored under its URI. *)
Section RowCallback.

Context {V : Type} (mk : json -> V) (ok : json -> bool)
  (step : gmap string V -> json -> Outcome (gmap string V)).

Hypothesis ok_null : ok JNull = false.

Hypothesis step_eq : forall m r,
  step m r
  = if ok r
    then Ok (if truthy_val (binding_uri r)
             then <[ToString_val (binding_uri r) := mk r]> m
             else m)
    else Throw TypeError.

Lemma forEach_rows_ok rows acc :
  Forall (fun r => ok r = true) rows -> exists m, forEach step rows acc = Ok m.
Proof.
  intros H. revert acc. induction H as [|r rows Hr _ IH]; intros acc; simpl.
  - eexists. reflexivity.
  - rewrite step_eq, Hr. apply IH.
Qed.

Lemma forEach_rows_ok_inv rows acc m :
  forEach step rows acc = Ok m -> Forall (fun r => ok r = true) rows.
Proof.
  revert acc. induction rows as [|r rows IH]; intros acc; simpl; [constructor|].
  rewrite step_eq. destruct (ok r) eqn:Hr; [|discriminate].
  intros E. constructor; [exact Hr | exact (IH _ E)].
Qed.

Lemma forEach_rows_throw rows acc e :
  forEach step rows acc = Throw e -> e = TypeError.
Proof.
  revert acc. induction rows as [|r rows IH]; intros acc; simpl; [discriminate|].
  rewrite step_eq. destruct (ok r).
  - apply IH.
  - intros [= <-]. reflexivity.
Qed.

(** Every entry of the result is an entry of the accumulator or the record
    of a row, stored under that row's URI. *)
Lemma forEach_rows_lookup rows acc m k v :
  forEach step rows acc = Ok m ->
  m !! k = Some v ->
  acc !! k = Some v
  \/ exists r, In r rows /\ r <> JNull /\ truthy_val (binding_uri r) = true
               /\ k = ToString_val (binding_uri r) /\ v = mk r.
Proof.
  revert acc. induction rows as [|r rows IH]; intros acc; simpl.
  - intros [= <-]. auto.
  - rewrite step_eq. destruct (ok r) eqn:Hr; [|discriminate].
    assert (Hnn : r <> JNull) by (intros ->; congruence).
    intros E Hk.
    destruct (IH _ E Hk) as [Hacc | (r' & Hin & H')].
    + destruct (truthy_val (binding_uri r)) eqn:Ht; [|auto].
      destruct (decide (ToString_val (binding_uri r) = k)) as [<-|Hne].
      * rewrite lookup_insert_eq in Hacc. injection Hacc as <-.
        right. exists r. repeat split; auto.
      * rewrite lookup_insert_ne in Hacc by exact Hne. auto.
    + right. exists r'. split; [right; exact Hin | exact H'].
Qed.

(** The last row is the one that counts for its URI. *)
Lemma forEach_rows_last rows r acc m :
  forEach step (rows ++ [r]) acc = Ok m ->
  truthy_val (binding_uri r) = true ->
  m !! ToString_val (binding_uri r) = Some (mk r).
Proof.
  rewrite forEach_app. destruct (forEach step rows acc) as [m'|]; [|discriminate].
  simpl. rewrite step_eq. destruct (ok r); [|discriminate].
  intros E Ht. rewrite Ht in E. injection E as <-. apply lookup_insert_eq.
Qed.

End RowCallback.

Lemma storable_null keys : storable keys JNull = false.
Proof. reflexivity. Qed.

Lemma adoption_row_eq m r :
  adoption_row m r
  = if storable [] r
    then Ok (if truthy_val (binding_uri r)
             then <[ToString_val (binding_uri r) := adoption_of_binding r]> m
             else m)
    else Throw TypeError.
Proof.
  destruct r; [reflexivity|..];
    unfold adoption_row, storable, binding_uri, adoption_of_binding,
      ToString_call, and_then;
    cbn [get_prop is_null negb andb forallb];
    destruct (truthy_val _); cbn [negb orb]; [|reflexivity|..];
    try (destruct (printable_val _); reflexivity); reflexivity.
Qed.

Lemma design_row_eq m r :
  design_row m r
  = if storable design_keys r
    then Ok (if truthy_val (binding_uri r)
             then <[ToString_val (binding_uri r) := design_of_binding r]> m
             else m)
    else Throw TypeError.
Proof.
  destruct r; [reflexivity|..];
    unfold design_row, storable, binding_uri, design_of_binding, design_keys,
      ToString_call, parseInt_call, and_then;
    cbn [get_prop is_null negb andb forallb printable_val];
    destruct (truthy_val _); cbn [negb orb]; try reflexivity;
    repeat match goal with
           | |- context [printable_val ?v] => destruct (printable_val v)
           | |- context [printable ?v] => destruct (printable v)
           end; reflexivity.
Qed.

Section Fetchers.

(** X5. Every entry of the mapping [getAdoptionConvergenceData] builds is
    the record of one of the bindings, stored under that binding's truthy
    [vocab.value]; and each of its three fields is a truthy value (a count
    that is missing or empty in the binding is stored as "0"). *)
Theorem adoption_map_entries
    (rows : list json) (m : gmap string AdoptionMetrics)
    (k : string) (a : AdoptionMetrics) :
  forEach adoption_row rows ∅ = Ok m ->
  m !! k = Some a ->
  (exists r, In r rows /\ truthy_val (binding_uri r) = true
             /\ k = ToString_val (binding_uri r) /\ a = adoption_of_binding r)
  /\ truthy_val (reusedByVocabularies a) = true
  /\ truthy_val (reusedByDatasets a) = true
  /\ truthy_val (occurrencesInDatasets a) = true.
Proof.
  intros E Hk.
  destruct (forEach_rows_lookup adoption_of_binding (storable []) adoption_row
              (storable_null []) adoption_row_eq rows ∅ m k a E Hk)
    as [Hempty | (r & Hin & _ & Ht & -> & ->)].
  - rewrite lookup_empty in Hempty. discriminate.
  - split; [exists r; auto|].
    repeat split; apply binding_value_truthy.
Qed.

Lemma adoption_map_entries_witness :
  truthy_val (reusedByDatasets (adoption_of_binding binding_A_again)) = true.
Proof.
  destruct (adoption_map_entries [binding_A; binding_A_again]
              {[ "A" := adoption_of_binding binding_A_again ]}
              "A" (adoption_of_binding binding_A_again))
    as (_ & _ & H & _).
  - vm_compute. reflexivity.
  - apply lookup_singleton_eq.
  - exact H.
Defined.

(** X6. When two bindings name the same vocabulary, the later one replaces
    the earlier record as a whole, in either fetcher: a count the later
    binding lacks falls back to the default, not to the earlier value. *)
Theorem later_binding_replaces
    (rows : list json) (r : json)
    (A : gmap string AdoptionMetrics) (D : gmap string DesignMetrics) :
  r <> JNull ->
  truthy_val (binding_uri r) = true ->
  forEach adoption_row (rows ++ [r]) ∅ = Ok A ->
  forEach design_row (rows ++ [r]) ∅ = Ok D ->
  A !! ToString_val (binding_uri r) = Some (adoption_of_binding r)
  /\ D !! ToString_val (binding_uri r) = Some (design_of_binding r).
Proof.
  intros Hr Ht EA ED. split.
  - exact (forEach_rows_last adoption_of_binding (storable []) adoption_row
             adoption_row_eq rows r ∅ A EA Ht).
  - exact (forEach_rows_last design_of_binding (storable design_keys) design_row
             design_row_eq rows r ∅ D ED Ht).
Qed.

Lemma later_binding_replaces_witness :
  match forEach adoption_row ([binding_A] ++ [binding_A_again]) ∅ with
  | Ok A => reusedByDatasets <$> (A !! "A") = Some (Some (JStr "0"))
  | Throw _ => False
  end.
Proof.
  destruct (forEach adoption_row ([binding_A] ++ [binding_A_again]) ∅) as [A|] eqn:EA;
    [|discriminate EA].
  destruct (forEach design_row ([binding_A] ++ [binding_A_again]) ∅) as [D|] eqn:ED;
    [|discriminate ED].
  destruct (later_binding_replaces [binding_A] binding_A_again A D) as [H _];
    [discriminate | reflexivity | exact EA | exact ED |].
  change (ToString_val (binding_uri binding_A_again)) with "A" in H.
  rewrite H. reflexivity.
Defined.

(** X7. Over an array of bindings the loop of a fetcher completes exactly
    when its callback returns on every binding: none is [null], and one with
    a truthy [vocab.value] has a [vocab.value] that converts to a string and,
    in the design fetcher, six counts that do. When the loop throws, it
    throws a TypeError. *)
Theorem fetcher_loop_completes (rows : list json) :
  ((exists m, forEach adoption_row rows ∅ = Ok m)
   <-> Forall (fun r => storable [] r = true) rows)
  /\ ((exists m, forEach design_row rows ∅ = Ok m)
      <-> Forall (fun r => storable design_keys r = true) rows)
  /\ (forall e, forEach adoption_row rows ∅ = Throw e -> e = TypeError)
  /\ (forall e, forEach design_row rows ∅ = Throw e -> e = TypeError).
Proof.
  repeat split.
  - intros [m E].
    exact (forEach_rows_ok_inv adoption_of_binding (storable []) adoption_row
             adoption_row_eq rows ∅ m E).
  - apply (forEach_rows_ok adoption_of_binding (storable []) adoption_row
             adoption_row_eq).
  - intros [m E].
    exact (forEach_rows_ok_inv design_of_binding (storable design_keys) design_row
             design_row_eq rows ∅ m E).
  - apply (forEach_rows_ok design_of_binding (storable design_keys) design_row
             design_row_eq).
  - intros e E.
    apply (forEach_rows_throw adoption_of_binding (storable []) adoption_row
             adoption_row_eq rows ∅ e E).
  - intros e E.
    apply (forEach_rows_throw design_of_binding (storable design_keys) design_row
             design_row_eq rows ∅ e E).
Qed.

End Fetchers.

Section WellFormedBindings.

Local Open Scope R_scope.

Lemma fetchers_empty_on_failure (net : Network) (uris : list json) (w : World) :
  (forall q, transport_failure (net (SparqlRequest q))) ->
  forallb printable uris = true ->
  fst (getAdoptionConvergenceData net uris w) = Ok ∅
  /\ fst (getDesignConvergenceData net uris w) = Ok ∅.
Proof.
  intros Hdown Hp.
  unfold getAdoptionConvergenceData, getDesignConvergenceData.
  destruct uris as [|u uris]; [split; reflexivity|].
  unfold uriFilter_call. rewrite Hp.
  rewrite !(bind_ok _ _ _ (uriFilter (u :: uris))) by reflexivity.
  cbn [lift snd]. split.
  - destruct (executeSPARQLQuery_transport_failure net
                (adoption_query (u :: uris)) w (Hdown _)) as [E _].
    rewrite (bind_ok _ _ _ _ E). reflexivity.
  - destruct (executeSPARQLQuery_transport_failure net
                (design_query (u :: uris)) w (Hdown _)) as [E _].
    rewrite (bind_ok _ _ _ _ E). reflexivity.
Qed.

Lemma fetchers_throw_unprintable (net : Network) (uris : list json) (w : World) :
  forallb printable uris = false ->
  getAdoptionConvergenceData net uris w = (Throw TypeError, w)
  /\ getDesignConvergenceData net uris w = (Throw TypeError, w).
Proof.
  intros Hp. unfold getAdoptionConvergenceData, getDesignConvergenceData.
  destruct uris as [|u uris]; [discriminate Hp|].
  unfold uriFilter_call, bind, lift. rewrite Hp. split; reflexivity.
Qed.

(** X8. When the graph endpoint fails at transport for every query, a
    metadata fetcher that was given no URI, or that has issued its request,
    returns the empty mapping instead of throwing. A URI that does not
    convert to a string makes both fetchers throw a TypeError while they
    build their query, outside any [try] block and before any request. *)
Theorem fetchers_degrade_to_empty (net : Network) (uris : list json) (w : World) :
  (forall q, transport_failure (net (SparqlRequest q))) ->
  (uris = [] \/ requests (snd (getAdoptionConvergenceData net uris w)) <> requests w ->
   fst (getAdoptionConvergenceData net uris w) = Ok ∅)
  /\ (uris = [] \/ requests (snd (getDesignConvergenceData net uris w)) <> requests w ->
      fst (getDesignConvergenceData net uris w) = Ok ∅)
  /\ (forallb printable uris = false ->
      getAdoptionConvergenceData net uris w = (Throw TypeError, w)
      /\ getDesignConvergenceData net uris w = (Throw TypeError, w)).
Proof.
  intros Hdown. destruct (forallb printable uris) eqn:Hp.
  - destruct (fetchers_empty_on_failure net uris w Hdown Hp) as [EA ED].
    repeat split; try discriminate; intros _; assumption.
  - destruct (fetchers_throw_unprintable net uris w Hp) as [EA ED].
    rewrite EA, ED. cbn [fst snd].
    repeat split; try reflexivity;
      (intros [-> | Hsent]; [discriminate Hp | contradiction]).
Qed.

Lemma fetchers_degrade_to_empty_witness :
  fst (getAdoptionConvergenceData graph_down_net [JStr "A"] empty_world) = Ok ∅
  /\ fst (getDesignConvergenceData graph_down_net [JStr "A"] empty_world) = Ok ∅.
Proof.
  destruct (fetchers_degrade_to_empty graph_down_net [JStr "A"] empty_world)
    as (HA & HD & _).
  - intros q. left. reflexivity.
  - split; [apply HA | apply HD]; right; vm_compute; discriminate.
Defined.

Lemma nonneg_metrics_unit_score a d :
  nonneg_metrics a d -> unit_score (calculateConnectivityScore a d).
Proof.
  intros H.
  destruct (H F_extends) as (e & He & Ee).
  destruct (H F_hasEquivalencesWith) as (h & Hh & Eh).
  destruct (H F_reliesOn) as (r & Hr & Er).
  destruct (H F_usedBy) as (u & Hu & Eu).
  destruct (H F_specializes) as (s & Hs & Es).
  destruct (H F_generalizes) as (g & Hg & Eg).
  destruct (H F_reusedByVocabularies) as (v & Hv & Ev).
  destruct (H F_reusedByDatasets) as (x & Hx & Ex).
  destruct (H F_occurrencesInDatasets) as (o & Ho & Eo).
  rewrite calculateConnectivityScore_eq, Ee, Eh, Er, Eu, Es, Eg, Ev, Ex, Eo.
  apply IZR_le in He, Hh, Hr, Hu, Hs, Hg, Hv, Hx, Ho.
  unfold Num.of_Z. eexists. split.
  - apply score_of_Fin; lra.
  - apply spec_score_range; assumption.
Qed.

Lemma nonneg_metrics_intro a d :
  (0 <= adoption_count (reusedByVocabularies a))%Z ->
  (0 <= adoption_count (reusedByDatasets a))%Z ->
  (0 <= adoption_count (occurrencesInDatasets a))%Z ->
  parsed_nonneg (extends d) -> parsed_nonneg (hasEquivalencesWith d) ->
  parsed_nonneg (reliesOn d) -> parsed_nonneg (usedBy d) ->
  parsed_nonneg (specializes d) -> parsed_nonneg (generalizes d) ->
  nonneg_metrics a d.
Proof.
  intros Hv Hx Ho (v1 & E1 & H1) (v2 & E2 & H2) (v3 & E3 & H3)
         (v4 & E4 & H4) (v5 & E5 & H5) (v6 & E6 & H6) f.
  destruct f; unfold metric_value;
    rewrite ?E1, ?E2, ?E3, ?E4, ?E5, ?E6, or_zero_parseInt;
    eexists; (split; [|reflexivity]); assumption.
Qed.

(** X9. When no count in the bindings parses to a negative integer and no
    adoption binding is named [__proto__], every merged record has a score
    from 0 to 1 and the ranked list is in non-increasing order of score. *)
Theorem nonneg_bindings_rank
    (adoptionRows designRows rows : list json)
    (A : gmap string AdoptionMetrics) (D : gmap string DesignMetrics)
    (merged : list RankedEntry) :
  forEach adoption_row adoptionRows ∅ = Ok A ->
  forEach design_row designRows ∅ = Ok D ->
  Forall (nonneg_binding adoption_keys) adoptionRows ->
  Forall (nonneg_binding design_keys) designRows ->
  A !! "__proto__" = None ->
  merge_results A D rows = Ok merged ->
  Forall (fun m => unit_score (connectivityScore m)) merged
  /\ exists final, merge_and_rank A D rows = Ok final /\ descending final.
Proof.
  intros EA ED HA HD Hproto Em.
  assert (Hunit : Forall (fun m => unit_score (connectivityScore m)) merged).
  { rewrite (merge_results_inv A D rows merged Em).
    apply Forall_forall. intros m Hm.
    apply list_elem_of_In, List.in_map_iff in Hm as (r & <- & _).
    cbn [merged_record connectivityScore].
    apply nonneg_metrics_unit_score.
    set (key := row_key r).
    assert (Ha : (0 <= adoption_count (reusedByVocabularies (read_adoption A key)))%Z
                 /\ (0 <= adoption_count (reusedByDatasets (read_adoption A key)))%Z
                 /\ (0 <= adoption_count (occurrencesInDatasets (read_adoption A key)))%Z).
    { unfold read_adoption. destruct (A !! key) as [a|] eqn:Hk.
      - destruct (forEach_rows_lookup adoption_of_binding (storable []) adoption_row
                    (storable_null []) adoption_row_eq adoptionRows ∅ A key a EA Hk)
          as [Hempty | (b & Hin & _ & _ & _ & ->)];
          [rewrite lookup_empty in Hempty; discriminate|].
        rewrite List.Forall_forall in HA. specialize (HA b Hin).
        unfold nonneg_binding, adoption_keys in HA.
        inversion HA as [|? ? H1 HA1]; subst. inversion HA1 as [|? ? H2 HA2]; subst.
        inversion HA2 as [|? ? H3 _]; subst. auto.
      - rewrite Hproto. cbn [mbind option_bind].
        destruct (is_object_prototype_member key);
          repeat split; vm_compute; discriminate. }
    assert (Hzero : parsed_nonneg (Fin 0)).
    { exists (Some (JStr "0")). split; [reflexivity | vm_compute; discriminate]. }
    assert (Hnone : parsed_nonneg NaN).
    { exists None. split; [reflexivity | vm_compute; discriminate]. }
    assert (Hd : parsed_nonneg (extends (read_design D key))
                 /\ parsed_nonneg (hasEquivalencesWith (read_design D key))
                 /\ parsed_nonneg (reliesOn (read_design D key))
                 /\ parsed_nonneg (usedBy (read_design D key))
                 /\ parsed_nonneg (specializes (read_design D key))
                 /\ parsed_nonneg (generalizes (read_design D key))).
    { unfold read_design. destruct (D !! key) as [d|] eqn:Hk.
      - destruct (forEach_rows_lookup design_of_binding (storable design_keys)
                    design_row (storable_null design_keys) design_row_eq
                    designRows ∅ D key d ED Hk)
          as [Hempty | (b & Hin & _ & _ & _ & ->)];
          [rewrite lookup_empty in Hempty; discriminate|].
        rewrite List.Forall_forall in HD. specialize (HD b Hin).
        unfold nonneg_binding, design_keys in HD.
        inversion HD as [|? ? H1 HD1]; subst. inversion HD1 as [|? ? H2 HD2]; subst.
        inversion HD2 as [|? ? H3 HD3]; subst. inversion HD3 as [|? ? H4 HD4]; subst.
        inversion HD4 as [|? ? H5 HD5]; subst. inversion HD5 as [|? ? H6 _]; subst.
        repeat split; eexists; (split; [reflexivity|]); assumption.
      - destruct (D !! "__proto__" ≫= _) as [x|];
          [destruct (truthy_number x) | destruct (is_object_prototype_member key)];
          repeat split; assumption. }
    destruct Ha as (? & ? & ?). destruct Hd as (? & ? & ? & ? & ? & ?).
    apply nonneg_metrics_intro; assumption. }
  split; [exact Hunit|].
  destruct (merge_and_rank_sorted A D rows merged Em) as (final & E & _ & Hdesc).
  exists final. split; [exact E|]. apply Hdesc.
  eapply Forall_impl; [exact Hunit|]. intros m (x & -> & _). discriminate.
Qed.

Lemma nonneg_bindings_rank_witness :
  exists final,
    merge_and_rank {[ "A" := adoption_of_binding binding_A ]}
                   {[ "A" := design_of_binding binding_A ]} [row_A; row_B] = Ok final
    /\ descending final.
Proof.
  destruct (nonneg_bindings_rank [binding_A] [binding_A] [row_A; row_B]
              {[ "A" := adoption_of_binding binding_A ]}
              {[ "A" := design_of_binding binding_A ]}
              (List.map (merged_record {[ "A" := adoption_of_binding binding_A ]}
                                       {[ "A" := design_of_binding binding_A ]})
                        [row_A; row_B])) as [_ H].
  - vm_compute. reflexivity.
  - vm_compute. reflexivity.
  - repeat constructor; vm_compute; discriminate.
  - repeat constructor; vm_compute; discriminate.
  - reflexivity.
  - reflexivity.
  - exact H.
Defined.

(** Why the binding named [__proto__] is set aside: it installs its record
    as the prototype of the mapping, a row named after a field of the record
    then reads the value of that field as its metrics, and the fields of
    that value are counts nobody has looked at. *)
Lemma installed_prototype_score :
  match forEach adoption_row [binding_proto] ∅ with
  | Ok A =>
      nonneg_binding adoption_keys binding_proto
      /\ match merge_results A ∅ [row_field] with
         | Ok [m] => connectivityScore m = NaN
         | _ => False
         end
  | Throw _ => False
  end.
Proof.
  change (forEach adoption_row [binding_proto] ∅)
    with (Ok (<["__proto__" := adoption_of_binding binding_proto]>
                (∅ : gmap string AdoptionMetrics))).
  split; [repeat constructor; vm_compute; discriminate|].
  rewrite merge_results_ok by reflexivity.
  cbn [List.map]. unfold merged_record. cbn [connectivityScore].
  change (read_adoption _ (row_key row_field))
    with {| reusedByVocabularies := Some (JStr "-5");
            reusedByDatasets := None;
            occurrencesInDatasets := None |}.
  change (read_design ∅ (row_key row_field)) with default_design.
  rewrite calculateConnectivityScore_eq. unfold metric_value.
  rewrite !or_zero_parseInt.
  change (adoption_count (reusedByVocabularies _)) with (-5)%Z.
  unfold Num.of_Z at 1. apply score_of_NaN. lra.
Qed.

End WellFormedBindings.

(** ** The pipeline as a whole *)

Section PipelineState.

Lemma keeps_field_of_app {X A} (field : AppState -> X) (m : M A) :
  keeps_app m -> keeps_field field m.
Proof. intros H w. rewrite H. reflexivity. Qed.

Lemma keeps_field_bind {X A B} (field : AppState -> X) (m : M A) (k : A -> M B) :
  keeps_field field m -> (forall a, keeps_field field (k a)) ->
  keeps_field field (bind m k).
Proof.
  intros Hm Hk w. unfold bind. specialize (Hm w).
  destruct (m w) as [[a|e] w1]; simpl in *; [|exact Hm].
  rewrite Hk. exact Hm.
Qed.

(** The [try] block writes [searchResults] and [loading], nothing else. *)
Lemma keeps_field_performSearch_try {X} (field : AppState -> X) net term :
  (forall s b rs, field {| searchTerm := searchTerm s; loading := b;
                           searchResults := rs; error := error s |}
                  = field s) ->
  keeps_field field (performSearch_try net term).
Proof.
  intros Hfield. unfold performSearch_try.
  apply keeps_field_bind; [apply keeps_field_of_app, keeps_app_searchLOV|intros lov].
  apply keeps_field_bind; [apply keeps_field_of_app, keeps_app_lift|intros len].
  destruct (is_zero len).
  { intros w. cbn. apply (Hfield (app w)). }
  apply keeps_field_bind; [apply keeps_field_of_app, keeps_app_lift|intros rows].
  apply keeps_field_bind; [apply keeps_field_of_app, keeps_app_lift|intros uris].
  apply keeps_field_bind; [|intros maps].
  { apply keeps_field_of_app, keeps_app_promise_all;
      [apply keeps_app_getAdoptionConvergenceData
      |apply keeps_app_getDesignConvergenceData]. }
  apply keeps_field_bind; [apply keeps_field_of_app, keeps_app_lift|intros enhanced].
  intros w. cbn. apply (Hfield (app w)).
Qed.

(** What [performSearch] leaves behind when its [try] block completes. *)
Lemma performSearch_completed net term w :
  trim_is_empty term = false ->
  fst (performSearch_try net term (searching w)) = Ok tt ->
  performSearch net term w
  = (Ok tt,
     {| requests := requests (snd (performSearch_try net term (searching w)));
        console := console (snd (performSearch_try net term (searching w)));
        app := {| searchTerm := searchTerm (app w);
                  loading := false;
                  searchResults :=
                    searchResults (app (snd (performSearch_try net term (searching w))));
                  error := None |} |}).
Proof.
  intros Hterm Hok. rewrite (performSearch_searching net term w Hterm).
  pose proof (keeps_field_performSearch_try error net term
                (fun _ _ _ => eq_refl) (searching w)) as He.
  pose proof (keeps_field_performSearch_try searchTerm net term
                (fun _ _ _ => eq_refl) (searching w)) as Hs.
  unfold try_finally, try_catch.
  destruct (performSearch_try net term (searching w)) as [r w1].
  simpl in Hok, He, Hs. subst r. cbn. rewrite He, Hs. reflexivity.
Qed.

(** X10. [performSearch] never throws. For a term that is not blank it
    ends with the loading flag cleared, and with no error when its [try]
    block completed and the generic message when that threw: a message
    left by an earlier search does not survive. *)
Theorem performSearch_always_returns (net : Network) (term : string) (w : World) :
  fst (performSearch net term w) = Ok tt
  /\ (trim_is_empty term = false ->
      loading (app (snd (performSearch net term w))) = false
      /\ (fst (performSearch_try net term (searching w)) = Ok tt
          /\ error (app (snd (performSearch net term w))) = None
          \/ (exists e, fst (performSearch_try net term (searching w)) = Throw e)
             /\ error (app (snd (performSearch net term w)))
                = Some "Search failed. Please try again.")).
Proof.
  destruct (trim_is_empty term) eqn:Hterm.
  - split; [|discriminate]. unfold performSearch. rewrite Hterm. reflexivity.
  - destruct (fst (performSearch_try net term (searching w))) as [[]|e] eqn:Htry.
    + rewrite (performSearch_completed net term w Hterm Htry).
      split; [reflexivity|]. intros _. split; [reflexivity|]. left. auto.
    + rewrite (performSearch_searching net term w Hterm).
      unfold try_finally, try_catch.
      destruct (performSearch_try net term (searching w)) as [r w1].
      simpl in Htry. subst r. cbn.
      split; [reflexivity|]. intros _. split; [reflexivity|]. right.
      split; [exists e|]; reflexivity.
Qed.

End PipelineState.

Lemma performSearch_always_returns_witness :
  fst (performSearch missing_bindings_net "person" empty_world) = Ok tt
  /\ loading (app (snd (performSearch missing_bindings_net "person" empty_world))) = false.
Proof.
  destruct (performSearch_always_returns missing_bindings_net "person" empty_world)
    as [H1 H2].
  split; [exact H1|]. apply H2. reflexivity.
Defined.

Section PipelineRequests.

Lemma getAdoptionConvergenceData_requests net uris w :
  requests (snd (getAdoptionConvergenceData net uris w))
  = (requests w ++ match uris with
                   | [] => []
                   | _ => if forallb printable uris
                          then [SparqlRequest (adoption_query uris)]
                          else []
                   end)%list.
Proof.
  unfold getAdoptionConvergenceData.
  destruct uris as [|u uris]; [symmetry; apply app_nil_r|].
  unfold uriFilter_call, bind, lift.
  destruct (forallb printable (u :: uris)); [|symmetry; apply app_nil_r].
  pose proof (executeSPARQLQuery_requests net (adoption_query (u :: uris)) w) as H.
  destruct (executeSPARQLQuery net (adoption_query (u :: uris)) w) as [[v|e] w1];
    simpl in H; [|exact H].
  destruct (as_array v) as [rows|e]; [|exact H].
  cbn beta iota. destruct (forEach adoption_row rows ∅); exact H.
Qed.

Lemma getDesignConvergenceData_requests net uris w :
  requests (snd (getDesignConvergenceData net uris w))
  = (requests w ++ match uris with
                   | [] => []
                   | _ => if forallb printable uris
                          then [SparqlRequest (design_query uris)]
                          else []
                   end)%list.
Proof.
  unfold getDesignConvergenceData.
  destruct uris as [|u uris]; [symmetry; apply app_nil_r|].
  unfold uriFilter_call, bind, lift.
  destruct (forallb printable (u :: uris)); [|symmetry; apply app_nil_r].
  pose proof (executeSPARQLQuery_requests net (design_query (u :: uris)) w) as H.
  destruct (executeSPARQLQuery net (design_query (u :: uris)) w) as [[v|e] w1];
    simpl in H; [|exact H].
  destruct (as_array v) as [rows|e]; [|exact H].
  cbn beta iota. destruct (forEach design_row rows ∅); exact H.
Qed.

Lemma promise_all_requests net uris w :
  requests (snd (promise_all (getAdoptionConvergenceData net uris)
                             (getDesignConvergenceData net uris) w))
  = (requests w ++ if forallb printable uris then metadata_requests uris else [])%list.
Proof.
  unfold promise_all.
  pose proof (getAdoptionConvergenceData_requests net uris w) as H1.
  destruct (getAdoptionConvergenceData net uris w) as [r1 w1].
  pose proof (getDesignConvergenceData_requests net uris w1) as H2.
  destruct (getDesignConvergenceData net uris w1) as [r2 w2].
  simpl in *. rewrite H2, H1. unfold metadata_requests.
  destruct uris as [|u uris]; [rewrite !app_nil_r; reflexivity|].
  destruct (forallb printable (u :: uris)); [|rewrite !app_nil_r; reflexivity].
  rewrite <- app_assoc. reflexivity.
Qed.

(** [lovResults.map(result => result.uri)] throws on a row that is [null];
    over other rows the filter keeps the truthy URIs. *)
Lemma collect_uris_eq rows :
  collect_uris rows
  = if forallb (fun r => negb (is_null r)) rows then Ok (row_uris rows)
    else Throw TypeError.
Proof.
  unfold collect_uris.
  assert (E : map_throwing (fun result => get_prop (Some result) "uri") rows
              = if forallb (fun r => negb (is_null r)) rows
                then Ok (List.map (fun r => get_own r "uri") rows)
                else Throw TypeError).
  { induction rows as [|r rows IH]; [reflexivity|].
    cbn [map_throwing forallb List.map]. rewrite IH.
    destruct r; [reflexivity|..];
      cbn [get_prop is_null negb andb];
      destruct (forallb _ rows); reflexivity. }
  rewrite E. destruct (forallb _ rows); [|reflexivity].
  f_equal. unfold row_uris. clear E.
  induction rows as [|r rows IH]; [reflexivity|].
  cbn [List.map]. change (omap ?f (?x :: ?l)) with
    (match f x with Some y => y :: omap f l | None => omap f l end).
  rewrite IH.
  destruct (get_own r "uri") as [u|]; [|reflexivity].
  cbn [truthy_val]. destruct (truthy u); reflexivity.
Qed.

(** The requests of the [try] block when the keyword search returns an array
    of rows: after those of the keyword search come the two graph queries
    over the truthy URIs of the rows, unless a row is [null] or a URI does
    not convert to a string; and then the block does not complete. *)
Lemma performSearch_try_requests net term w rows :
  fst (searchLOV net term w) = Ok (JArr rows) ->
  requests (snd (performSearch_try net term w))
  = (requests (snd (searchLOV net term w)) ++
       if forallb (fun r => negb (is_null r)) rows && forallb printable (row_uris rows)
       then metadata_requests (row_uris rows)
       else [])%list
  /\ (fst (performSearch_try net term w) = Ok tt ->
      forallb (fun r => negb (is_null r)) rows && forallb printable (row_uris rows)
      = true).
Proof.
  unfold performSearch_try, bind, lift.
  destruct (searchLOV net term w) as [[lov|e] w1]; [|discriminate].
  cbn [fst snd]. intros [= ->].
  cbn [get_prop get_own String.eqb Ascii.eqb Bool.eqb as_array].
  cbn beta iota.
  destruct (is_zero _) eqn:Hz.
  { assert (rows = []) as -> by (destruct rows; [reflexivity|discriminate Hz]).
    cbn. split; [symmetry; apply app_nil_r | reflexivity]. }
  cbn beta iota. rewrite collect_uris_eq.
  destruct (forallb (fun r => negb (is_null r)) rows); cbn [andb];
    [|split; [symmetry; apply app_nil_r | discriminate]].
  pose proof (promise_all_requests net (row_uris rows) w1) as H2.
  destruct (forallb printable (row_uris rows)) eqn:Hp.
  - split; [|reflexivity].
    destruct (promise_all _ _ w1) as [[maps|e] w2]; simpl in H2;
      [destruct (merge_and_rank maps.1 maps.2 rows)|]; cbn; exact H2.
  - unfold promise_all in *.
    rewrite (proj1 (fetchers_throw_unprintable net (row_uris rows) w1 Hp)) in *.
    rewrite (proj2 (fetchers_throw_unprintable net (row_uris rows) w1 Hp)) in *.
    cbn. split; [symmetry; apply app_nil_r | discriminate].
Qed.

(** The handlers of [performSearch] issue no request. *)
Lemma performSearch_requests net term w :
  trim_is_empty term = false ->
  requests (snd (performSearch net term w))
  = requests (snd (performSearch_try net term (searching w))).
Proof.
  intros Hterm. rewrite (performSearch_searching net term w Hterm).
  unfold try_finally, try_catch.
  destruct (performSearch_try net term (searching w)) as [[[]|e] w1]; reflexivity.
Qed.

(** X11. One call of [performSearch] on a term that is not blank, whose
    keyword search returns an array of rows, issues after the keyword search
    either nothing, or the adoption query and then the design query, both
    over the truthy [uri] values of the rows in row order: a row without a
    truthy [uri] takes no part in them. When the search completes the two
    queries have been issued (there are none when no row has a truthy
    [uri]); nothing follows the keyword search when a row is [null] or a
    URI does not convert to a string. *)
Theorem performSearch_request_discipline
    (net : Network) (term : string) (w : World) (rows : list json) :
  trim_is_empty term = false ->
  fst (searchLOV net term (searching w)) = Ok (JArr rows) ->
  let searched := requests (snd (searchLOV net term (searching w))) in
  let queries := metadata_requests (row_uris rows) in
  (requests (snd (performSearch net term w)) = searched
   \/ requests (snd (performSearch net term w)) = (searched ++ queries)%list)
  /\ (fst (performSearch_try net term (searching w)) = Ok tt ->
      requests (snd (performSearch net term w)) = (searched ++ queries)%list)
  /\ (forallb (fun r => negb (is_null r)) rows && forallb printable (row_uris rows)
      = false ->
      requests (snd (performSearch net term w)) = searched).
Proof.
  intros Hterm Hsearch searched queries.
  destruct (performSearch_try_requests net term (searching w) rows Hsearch)
    as [Hr Hok].
  rewrite (performSearch_requests net term w Hterm), Hr.
  fold searched. fold queries.
  split; [|split].
  - destruct (_ && _); [right; reflexivity | left; apply app_nil_r].
  - intros Hdone. rewrite (Hok Hdone). reflexivity.
  - intros ->. apply app_nil_r.
Qed.

Lemma performSearch_request_discipline_witness :
  requests (snd (performSearch nan_net "person" empty_world))
  = [SearchRequest "person";
     SparqlRequest (adoption_query [JStr "A"; JStr "B"; JStr "C"]);
     SparqlRequest (design_query [JStr "A"; JStr "B"; JStr "C"])].
Proof.
  destruct (performSearch_request_discipline nan_net "person" empty_world
              [row_A; row_B; row_C]) as (_ & H & _).
  - reflexivity.
  - reflexivity.
  - rewrite H; reflexivity.
Defined.

End PipelineRequests.

Section PipelineOutcomes.

Local Open Scope R_scope.

(** X12. When the keyword search fails at transport, [performSearch]
    stores the empty list and no error: to the user an unreachable registry
    looks like a search without results. One request was issued and one
    line written to the console. *)
Theorem search_failure_is_silent (net : Network) (term : string) (w : World) :
  trim_is_empty term = false ->
  transport_failure (net (SearchRequest term)) ->
  app (snd (performSearch net term w))
  = {| searchTerm := searchTerm (app w);
       loading := false;
       searchResults := [];
       error := None |}
  /\ requests (snd (performSearch net term w))
     = (requests w ++ [SearchRequest term])%list
  /\ length (console (snd (performSearch net term w))) = S (length (console w)).
Proof.
  intros Hterm Hfail.
  destruct (searchLOV_transport_failure net term (searching w) Hterm Hfail) as [E1 E2].
  pose proof (searchLOV_requests net term (searching w) Hterm) as E3.
  assert (Htry : performSearch_try net term (searching w)
                 = (setSearchResults [] ;;; setLoading false)
                     (snd (searchLOV net term (searching w)))).
  { unfold performSearch_try. rewrite (bind_ok _ _ _ _ E1).
    rewrite (bind_ok _ _ _ (Some (JNum 0))) by reflexivity. reflexivity. }
  rewrite (performSearch_completed net term w Hterm) by (rewrite Htry; reflexivity).
  rewrite Htry.
  remember (snd (searchLOV net term (searching w))) as W eqn:HW.
  cbn. rewrite E2, E3. auto.
Qed.

Lemma search_failure_is_silent_witness :
  searchResults (app (snd (performSearch unavailable_net "person" empty_world))) = []
  /\ error (app (snd (performSearch unavailable_net "person" empty_world))) = None.
Proof.
  destruct (search_failure_is_silent unavailable_net "person" empty_world) as [E _].
  - reflexivity.
  - right. left. exists 503%nat, None. split; reflexivity.
  - rewrite E. split; reflexivity.
Defined.

Lemma Array_sort_all_equal (v : Number) (l : list RankedEntry) :
  Forall (fun m => connectivityScore m = v) l ->
  Array_sort by_score_desc l = l.
Proof.
  induction 1 as [|x l Hx Hl IH]; [reflexivity|].
  simpl. rewrite IH. destruct l as [|y l']; [reflexivity|]. simpl.
  destruct (comparator_positive (by_score_desc x y)) eqn:Hc; [|reflexivity].
  apply by_score_desc_positive_neq in Hc.
  inversion Hl; subst. congruence.
Qed.

Lemma promise_all_ok {A B} (m1 : M A) (m2 : M B) w a b :
  (forall w0, fst (m1 w0) = Ok a) -> (forall w0, fst (m2 w0) = Ok b) ->
  fst (promise_all m1 m2 w) = Ok (a, b).
Proof.
  intros H1 H2. unfold promise_all. specialize (H1 w).
  destruct (m1 w) as [r1 w1]. specialize (H2 w1).
  destruct (m2 w1) as [r2 w2]. simpl in *. subst. reflexivity.
Qed.

Lemma forallb_not_null rows :
  Forall (fun r => r <> JNull) rows ->
  forallb (fun r => negb (is_null r)) rows = true.
Proof.
  induction 1 as [|r rows Hr _ IH]; [reflexivity|].
  cbn [forallb]. rewrite IH. destruct r; [contradiction|reflexivity..].
Qed.

(** A falsy value is a primitive, and converts to a string. *)
Lemma falsy_printable v : truthy v = false -> printable v = true.
Proof. destruct v; simpl; try reflexivity; discriminate. Qed.

Lemma row_uris_printable rows :
  forallb printable (row_uris rows) = true ->
  Forall (fun r => printable_val (get_own r "uri") = true) rows.
Proof.
  unfold row_uris. induction rows as [|r rows IH]; [constructor|].
  change (omap ?f (?x :: ?l)) with
    (match f x with Some y => y :: omap f l | None => omap f l end).
  cbn beta. destruct (get_own r "uri") as [u|] eqn:Eu.
  - destruct (truthy u) eqn:Ht.
    + cbn [forallb]. intros H. apply andb_true_iff in H as [Hu Hrest].
      constructor; [rewrite Eu; exact Hu | exact (IH Hrest)].
    + intros H.
      constructor; [rewrite Eu; apply falsy_printable, Ht | exact (IH H)].
  - intros H. constructor; [rewrite Eu; reflexivity | exact (IH H)].
Qed.

(** With two mappings without an entry a row whose key is not the name of a
    member of [Object.prototype] is merged with the defaults. *)
Lemma merged_record_defaults r :
  is_object_prototype_member (row_key r) = false ->
  merged_record ∅ ∅ r
  = {| entry := r;
       adoptionData := default_adoption;
       designData := default_design;
       connectivityScore := Fin 0 |}.
Proof.
  intros Hk. unfold merged_record, read_adoption, read_design.
  rewrite !lookup_empty. cbn [mbind option_bind]. rewrite Hk.
  rewrite score_defaults. reflexivity.
Qed.

Lemma merge_and_rank_defaults rows :
  Forall (fun r => r <> JNull) rows ->
  Forall (fun r => is_object_prototype_member (row_key r) = false) rows ->
  forallb printable (row_uris rows) = true ->
  merge_and_rank ∅ ∅ rows
  = Ok (List.map (fun r => {| entry := r;
                              adoptionData := default_adoption;
                              designData := default_design;
                              connectivityScore := Fin 0 |}) rows).
Proof.
  intros Hrows Hplain Hp. apply row_uris_printable in Hp.
  assert (Hm : forallb (mergeable ∅) rows = true).
  { clear -Hrows Hplain Hp.
    induction rows as [|r rows IH]; [reflexivity|].
    inversion Hrows as [|? ? Hr Hrows']; subst.
    inversion Hplain as [|? ? Hk Hplain']; subst.
    inversion Hp as [|? ? Hu Hp']; subst.
    cbn [forallb]. rewrite (IH Hrows' Hplain' Hp'), andb_true_r.
    unfold mergeable, read_adoption. rewrite lookup_empty.
    cbn [mbind option_bind]. rewrite Hk, Hu.
    destruct r; [contradiction|reflexivity..]. }
  assert (Hd : List.map (merged_record ∅ ∅) rows
               = List.map (fun r => {| entry := r;
                                       adoptionData := default_adoption;
                                       designData := default_design;
                                       connectivityScore := Fin 0 |}) rows).
  { clear -Hplain. induction Hplain as [|r rows Hk _ IH]; [reflexivity|].
    cbn [List.map]. rewrite (merged_record_defaults r Hk), IH. reflexivity. }
  unfold merge_and_rank. rewrite (merge_results_ok ∅ ∅ rows Hm), Hd.
  f_equal. apply (Array_sort_all_equal (Fin 0)).
  apply Forall_forall. intros m Hin.
  apply list_elem_of_In, List.in_map_iff in Hin as (r & <- & _). reflexivity.
Qed.

(** X13. The keyword search finds rows, none of them [null] and none named
    after a member of [Object.prototype]; the graph queries, when there is a
    URI to ask about, have been issued; and the graph endpoint fails at
    transport for every query, or no row has a truthy [uri]. Then
    [performSearch] stores the rows in their search order, each with the
    default metrics and score 0, and no error. *)
Theorem search_without_metadata
    (net : Network) (term : string) (w : World) (rows : list json) :
  trim_is_empty term = false ->
  fst (searchLOV net term (searching w)) = Ok (JArr rows) ->
  rows <> [] ->
  Forall (fun r => r <> JNull) rows ->
  Forall (fun r => is_object_prototype_member (row_key r) = false) rows ->
  ((forall q, transport_failure (net (SparqlRequest q))) \/ row_uris rows = []) ->
  requests (snd (performSearch net term w))
  = (requests (snd (searchLOV net term (searching w)))
     ++ metadata_requests (row_uris rows))%list ->
  searchResults (app (snd (performSearch net term w)))
  = List.map (fun r => {| entry := r;
                          adoptionData := default_adoption;
                          designData := default_design;
                          connectivityScore := Fin 0 |}) rows
  /\ error (app (snd (performSearch net term w))) = None
  /\ loading (app (snd (performSearch net term w))) = false.
Proof.
  intros Hterm Hsearch Hne Hrows Hplain Hmeta Hsent.
  assert (Huris : collect_uris rows = Ok (row_uris rows)).
  { rewrite collect_uris_eq, (forallb_not_null rows Hrows). reflexivity. }
  assert (Hp : forallb printable (row_uris rows) = true).
  { destruct (performSearch_try_requests net term (searching w) rows Hsearch)
      as [Hr _].
    rewrite (performSearch_requests net term w Hterm), Hr in Hsent.
    apply app_inv_head in Hsent.
    rewrite (forallb_not_null rows Hrows) in Hsent. cbn [andb] in Hsent.
    destruct (forallb printable (row_uris rows)) eqn:Hp; [reflexivity|].
    destruct (row_uris rows); [discriminate Hp | discriminate Hsent]. }
  assert (Hmaps : forall w0,
             fst (promise_all (getAdoptionConvergenceData net (row_uris rows))
                              (getDesignConvergenceData net (row_uris rows)) w0)
             = Ok (∅, ∅)).
  { intros w0. destruct Hmeta as [Hdown | Hnone].
    - apply promise_all_ok; intros w1;
        apply (fetchers_empty_on_failure net (row_uris rows) w1 Hdown Hp).
    - rewrite Hnone. reflexivity. }
  assert (Htry : exists W,
             performSearch_try net term (searching w)
             = setSearchResults
                 (List.map (fun r => {| entry := r;
                                        adoptionData := default_adoption;
                                        designData := default_design;
                                        connectivityScore := Fin 0 |}) rows) W).
  { unfold performSearch_try.
    rewrite (bind_ok _ _ _ _ Hsearch).
    rewrite (bind_ok _ _ _ (Some (JNum (Z.of_nat (length rows))))) by reflexivity.
    assert (is_zero (Some (JNum (Z.of_nat (length rows)))) = false) as ->.
    { destruct rows; [contradiction|reflexivity]. }
    rewrite (bind_ok _ _ _ rows) by reflexivity.
    rewrite (bind_ok _ _ _ (row_uris rows)) by exact Huris.
    rewrite (bind_ok _ _ _ _ (Hmaps _)). cbn [fst snd].
    rewrite (bind_ok _ _ _ _ (f_equal fst
               (f_equal (fun o => lift o _) (merge_and_rank_defaults rows Hrows Hplain Hp)))).
    eexists. reflexivity. }
  destruct Htry as [W Htry].
  rewrite (performSearch_completed net term w Hterm) by (rewrite Htry; reflexivity).
  rewrite Htry. cbn. auto.
Qed.

End PipelineOutcomes.

Lemma search_without_metadata_witness :
  List.map entry
    (searchResults (app (snd (performSearch graph_down_net "person" empty_world))))
  = [row_A; row_B; row_C]
  /\ error (app (snd (performSearch graph_down_net "person" empty_world))) = None.
Proof.
  destruct (search_without_metadata graph_down_net "person" empty_world
              [row_A; row_B; row_C]) as (E & Herr & _).
  - reflexivity.
  - reflexivity.
  - discriminate.
  - repeat constructor; discriminate.
  - repeat constructor.
  - left. intros q. left. reflexivity.
  - reflexivity.
  - rewrite E. split; [reflexivity | exact Herr].
Defined.

Section StoredRows.

(** X14. When the keyword search returns an array of rows and the search
    completes, the stored list holds exactly the search rows, each once: its
    entries are a permutation of the rows, and it is as long as they are. *)
Theorem stored_entries_are_the_rows
    (net : Network) (term : string) (w : World) (rows : list json) :
  trim_is_empty term = false ->
  fst (searchLOV net term (searching w)) = Ok (JArr rows) ->
  fst (performSearch_try net term (searching w)) = Ok tt ->
  Permutation rows
    (List.map entry (searchResults (app (snd (performSearch net term w)))))
  /\ length (searchResults (app (snd (performSearch net term w)))) = length rows.
Proof.
  intros Hterm Hsearch Hok.
  destruct (performSearch_try_rows net term (searching w) rows Hsearch Hok)
    as (A & D & final & Hrank & Hstored).
  rewrite (performSearch_completed net term w Hterm Hok).
  cbn [snd app searchResults]. rewrite Hstored.
  unfold merge_and_rank in Hrank.
  destruct (merge_results A D rows) as [enhanced|] eqn:E; [|discriminate].
  injection Hrank as <-.
  pose proof (merge_results_inv A D rows enhanced E) as ->.
  assert (HP : Permutation rows
                 (List.map entry (Array_sort by_score_desc
                                    (List.map (merged_record A D) rows)))).
  { rewrite <- Array_sort_perm. rewrite List.map_map. cbn [merged_record entry].
    rewrite List.map_id. reflexivity. }
  split; [exact HP|].
  apply Permutation_length in HP. rewrite List.length_map in HP. symmetry. exact HP.
Qed.

Lemma stored_entries_are_the_rows_witness :
  Permutation [row_A; row_B; row_C]
    (List.map entry
       (searchResults (app (snd (performSearch nan_net "person" empty_world))))).
Proof.
  apply (stored_entries_are_the_rows nan_net "person" empty_world [row_A; row_B; row_C]);
    reflexivity.
Defined.

End StoredRows.

(** ** The score and its meter *)

Section Meter.

Local Open Scope R_scope.

(** X15. Whatever the two records hold, the score is never greater than 1
    and never +Infinity. *)
Theorem score_never_above_one (a : AdoptionMetrics) (d : DesignMetrics) :
  ~ Num.lt (Fin 1) (calculateConnectivityScore a d)
  /\ calculateConnectivityScore a d <> PosInf.
Proof.
  unfold calculateConnectivityScore.
  match goal with |- context [Math_min (Fin 1) ?t] => destruct t as [| | |x] end;
    cbn [Math_min Num.lt]; split; try tauto; try discriminate.
  - lra.
  - pose proof (Rmin_l 1 x). lra.
Qed.

Lemma Int_part_bounds r (n m : Z) :
  IZR n <= r -> r < IZR m + 1 -> (n <= Int_part r <= m)%Z.
Proof.
  intros Hn Hm. destruct (base_Int_part r) as [H1 H2]. split.
  - apply Z.lt_succ_r, lt_IZR. rewrite succ_IZR. lra.
  - apply Z.lt_succ_r, lt_IZR. rewrite succ_IZR. lra.
Qed.

(** X16. For metrics that are non-negative integers the meter's width is a
    whole number of percent from 0 to 100. *)
Theorem meter_width_in_range (a : AdoptionMetrics) (d : DesignMetrics) :
  nonneg_metrics a d ->
  exists n, meter_width (calculateConnectivityScore a d) = Fin (IZR n)
            /\ (0 <= n <= 100)%Z.
Proof.
  intros H. destruct (nonneg_metrics_unit_score a d H) as (x & -> & Hx).
  unfold meter_width. cbn [Num.mul Math_round]. eexists. split; [reflexivity|].
  apply Int_part_bounds; lra.
Qed.

Lemma meter_width_in_range_witness :
  exists n, meter_width (calculateConnectivityScore default_adoption default_design)
            = Fin (IZR n) /\ (0 <= n <= 100)%Z.
Proof.
  apply (meter_width_in_range default_adoption default_design).
  intros f. exists 0%Z. split; [lia|]. destruct f; reflexivity.
Defined.

(** X17. The colour and the width of the meter agree: for a score that is
    a real number, a green meter is at least 70 wide, a yellow one from 40
    to 70, a red one at most 40; a NaN score gives a red meter. *)
Theorem meter_colour_matches_width (x : R) :
  (getColor (Fin x) = "bg-green-500" /\ (70 <= Int_part (x * 100 + 1 / 2))%Z
   \/ getColor (Fin x) = "bg-yellow-500" /\ (40 <= Int_part (x * 100 + 1 / 2) <= 70)%Z
   \/ getColor (Fin x) = "bg-red-500" /\ (Int_part (x * 100 + 1 / 2) <= 40)%Z)
  /\ meter_width (Fin x) = Fin (IZR (Int_part (x * 100 + 1 / 2)))
  /\ getColor NaN = "bg-red-500".
Proof.
  split; [|split; reflexivity].
  unfold getColor, num_geb.
  destruct (base_Int_part (x * 100 + 1 / 2)) as [H1 H2].
  destruct (Rle_dec 0.7 x) as [Hg|Hg].
  - left. split; [reflexivity|].
    apply Z.lt_succ_r, lt_IZR. rewrite succ_IZR. lra.
  - right. destruct (Rle_dec 0.4 x) as [Hy|Hy].
    + left. split; [reflexivity|]. split.
      * apply Z.lt_succ_r, lt_IZR. rewrite succ_IZR. lra.
      * apply Z.lt_succ_r, lt_IZR. rewrite succ_IZR. lra.
    + right. split; [reflexivity|].
      apply Z.lt_succ_r, lt_IZR. rewrite succ_IZR. lra.
Qed.

End Meter.
